(** * Semantic similarity service: text cleaning, scoring and ranking

    A shallow embedding of [app/text_processor.py], [app/similarity_service.py]
    and the [/similarity] handler of [app/main.py].

    - Python [str] is a list of Unicode code points ([N]).
    - Python [float] is IEEE binary64, the kernel's primitive [float]; the
      comparisons [>=], [<], [==] and truthiness are the primitive ones, so
      NaN and signed zeros behave as in Python.
    - NumPy's float32 numbers are the floats that [to_float32] leaves
      unchanged.  [float(x)] of such a number is the number itself; a
      comparison of a float32 scalar with a Python float is made at float32,
      the Python float rounded first (NumPy 2).  [np.dot] is its defining
      sum in index order; the rounding and summation order of the library's
      products are not modelled.
    - Python [int] is [Z]; list positions are [nat].
    - The sentence-transformer model is external: it is a parameter [embed],
      one vector per text (the same text always gives the same vector), and
      [model.encode] maps it over the batch. *)

From Stdlib Require Import Ascii String.
From Stdlib Require Import ZArith NArith List Bool Lia Arith.
From Stdlib Require Import Floats.
From Stdlib Require Import Sorted Permutation.
Import ListNotations.

Set Warnings "-inexact-float".

#[local] Open Scope list_scope.

(** ** Strings *)

Definition char := N.
Definition str := list char.

(** The code point of [' ']. *)
Definition space : char := 32%N.

(** [str.isspace] on one code point: the code points Python treats as
    whitespace, which [str.split], [str.strip] and the regex class [\s]
    all share. *)
Definition py_isspace (c : char) : bool :=
  ((9 <=? c) && (c <=? 13) || (28 <=? c) && (c <=? 32) ||
   (c =? 133) || (c =? 160) || (c =? 5760) ||
   (8192 <=? c) && (c <=? 8202) ||
   (c =? 8232) || (c =? 8233) || (c =? 8239) || (c =? 8287) ||
   (c =? 12288))%N.

(** A Rocq string literal read as a Python string (code points below 256). *)
Definition py (s : string) : str := map N_of_ascii (list_ascii_of_string s).

(** [str.isalnum] restricted to ASCII: digits and letters. The full Unicode
    table is a parameter of the model; this instance serves the examples. *)
Definition isalnum_ascii (c : char) : bool :=
  ((48 <=? c) && (c <=? 57) || (65 <=? c) && (c <=? 90) ||
   (97 <=? c) && (c <=? 122))%N.

(** Truthiness of a string or list: non-empty. *)
Definition truthy {A} (l : list A) : bool :=
  match l with [] => false | _ :: _ => true end.

Module TextProcessor.

(** Length of the run of [p]-characters at the front of [l]. *)
Fixpoint run_length (p : char -> bool) (l : str) : nat :=
  match l with
  | [] => 0
  | c :: r => if p c then S (run_length p r) else 0
  end.

Fixpoint take_while (p : char -> bool) (l : str) : str :=
  match l with
  | [] => []
  | c :: r => if p c then c :: take_while p r else []
  end.

Fixpoint drop_while (p : char -> bool) (l : str) : str :=
  match l with
  | [] => []
  | c :: r => if p c then drop_while p r else l
  end.

Definition nonspace (c : char) : bool := negb (py_isspace c).

(** [text.split()]: the maximal runs of non-whitespace, in order.  [in_tok]
    says that the scan is inside a token already emitted. *)
Fixpoint split_aux (in_tok : bool) (l : str) : list str :=
  match l with
  | [] => []
  | c :: r =>
      if py_isspace c then split_aux false r
      else if in_tok then split_aux true r
      else take_while nonspace l :: split_aux true r
  end.

Definition split (text : str) : list str := split_aux false text.

(** [sep.join(parts)]. *)
Fixpoint join (sep : str) (parts : list str) : str :=
  match parts with
  | [] => []
  | [t] => t
  | t :: rest => t ++ sep ++ join sep rest
  end.

(** [re.sub(pattern, ' ', text)] for a pattern [[class]{m,}] with [m >= 1]:
    at each position the greedy match is the whole run of class characters
    when it has at least [m] of them; a match is replaced by one space and
    the scan resumes after it ([skip] counts the characters of the match
    still to pass); otherwise the character is kept. *)
Fixpoint re_sub_runs (p : char -> bool) (m : nat) (skip : nat) (l : str) : str :=
  match l with
  | [] => []
  | c :: r =>
      match skip with
      | S k => re_sub_runs p m k r
      | O =>
          let n := run_length p l in
          if (m <=? n)%nat then space :: re_sub_runs p m (Nat.pred n) r
          else c :: re_sub_runs p m O r
      end
  end.

Definition lstrip (l : str) : str := drop_while py_isspace l.

Fixpoint rstrip (l : str) : str :=
  match l with
  | [] => []
  | c :: r =>
      match rstrip r with
      | [] => if py_isspace c then [] else [c]
      | r' => c :: r'
      end
  end.

(** [text.strip()]. *)
Definition strip (text : str) : str := rstrip (lstrip text).

Section Cleaning.

(** [str.isalnum] on one code point (the Unicode database's table). *)
Variable isalnum : char -> bool.

(** The regex class [\w]. *)
Definition isword (c : char) : bool := isalnum c || (c =? 95)%N.

(** The regex class [[^\w\s]]. *)
Definition special (c : char) : bool := negb (isword c) && negb (py_isspace c).

Definition clean_for_embedding (text : str) : str :=
  if negb (truthy text) then []
  else
    let text := join [space] (split text) in
    let text := re_sub_runs special 3 0 text in
    let text := re_sub_runs py_isspace 1 0 text in
    strip text.

Definition clean_for_embedding_batch (texts : list str) : list str :=
  map clean_for_embedding texts.

End Cleaning.

End TextProcessor.

(** ** Floats *)

(** Truthiness of a Python float: every value but [0.0] and [-0.0]. *)
Definition float_truthy (x : float) : bool := negb (x =? 0)%float.

Definition is_nan (x : float) : bool := negb (x =? x)%float.

(** The nearest binary32 number (ties to even, overflow to infinity), as
    NumPy's conversion of a Python float to [np.float32] gives it. *)
Definition to_float32 (x : float) : float :=
  match Prim2SF x with
  | S754_finite s m e => SF2Prim (binary_round 24 128 s m e)
  | _ => x
  end.

(** The position of a float in the order that [<], [<=] and [==] decide on
    the values that are not NaN: sign class first, then exponent, then
    mantissa; both zeros share one key. *)
Definition sf_key (x : spec_float) : Z * Z * Z :=
  match x with
  | S754_nan => (0, 0, 0)%Z
  | S754_zero _ => (0, 0, 0)%Z
  | S754_infinity true => (-2, 0, 0)%Z
  | S754_infinity false => (2, 0, 0)%Z
  | S754_finite true m e => (-1, - e, Z.neg m)%Z
  | S754_finite false m e => (1, e, Z.pos m)%Z
  end.

Definition key (x : float) : Z * Z * Z := sf_key (Prim2SF x).

Definition klt (a b : Z * Z * Z) : Prop :=
  let '(a1, a2, a3) := a in
  let '(b1, b2, b3) := b in
  (a1 < b1 \/ (a1 = b1 /\ (a2 < b2 \/ (a2 = b2 /\ a3 < b3))))%Z.

(** ** Sorting *)

(** [list.sort(key=lambda x: x[1], reverse=True)] on scored entries.  CPython
    reverses the list, runs its stable ascending sort, which compares keys
    with [<] only, and reverses the result. *)
Module ListSort.

Definition scored := (nat * float)%type.

Definition key_lt (a b : scored) : bool := (snd a <? snd b)%float.

(** Stable insertion: [x] goes before the first element whose key is
    strictly greater. *)
Fixpoint insert (x : scored) (l : list scored) : list scored :=
  match l with
  | [] => [x]
  | y :: r => if key_lt x y then x :: l else y :: insert x r
  end.

Definition sort_asc (l : list scored) : list scored :=
  fold_left (fun acc x => insert x acc) l [].

Definition sort_desc (l : list scored) : list scored :=
  rev (sort_asc (rev l)).

End ListSort.

(** [l[:k]] for a Python integer [k]: a negative bound counts from the end. *)
Definition slice_to {A} (k : Z) (l : list A) : list A :=
  if (0 <=? k)%Z then firstn (Z.to_nat k) l
  else firstn (Z.to_nat (Z.of_nat (length l) + k)) l.

(** [enumerate(l)], counting from [i]. *)
Fixpoint enumerate_from {A} (i : nat) (l : list A) : list (nat * A) :=
  match l with
  | [] => []
  | x :: r => (i, x) :: enumerate_from (S i) r
  end.

Definition enumerate {A} (l : list A) : list (nat * A) := enumerate_from 0 l.

(** ** The similarity service *)

Module SimilarityService.

Import TextProcessor ListSort.

Definition vec := list float.

Definition SIMILARITY_THRESHOLD : float := 0.3%float.
Definition TOP_K : Z := 5%Z.

(** [np.dot] of two 1-D arrays. *)
Definition dot (x y : vec) : float :=
  fold_left (fun acc ab => (acc + fst ab * snd ab)%float) (combine x y) 0%float.

(** [np.linalg.norm] of a 1-D array. *)
Definition norm (x : vec) : float := sqrt (dot x x).

(** The path [compute_cosine_similarity] takes. *)
Inductive cosine_path :=
| ZeroVector
| Division (num den : float).

Definition cosine_branch (vec1 vec2 : vec) : cosine_path :=
  let norm1 := norm vec1 in
  let norm2 := norm vec2 in
  if (norm1 =? 0)%float || (norm2 =? 0)%float then ZeroVector
  else Division (dot vec1 vec2) (norm1 * norm2)%float.

Definition compute_cosine_similarity (vec1 vec2 : vec) : float :=
  match cosine_branch vec1 vec2 with
  | ZeroVector => 0%float
  | Division num den => (num / den)%float
  end.

(** [np.dot(E, q)] for a matrix [E] (one row per entry) and a vector [q]:
    component [j] is the sum over [k] of [E[j][k] * q[k]]. *)
Definition dot_matrix_vector (E : list vec) (q : vec) : list float :=
  map (fun e => dot e q) E.

(** [np.dot(Q, E.T)]: component [i][j] is the sum over [k] of
    [Q[i][k] * E[j][k]]. *)
Definition dot_matrix_transposed (Q E : list vec) : list (list float) :=
  map (fun q => map (fun e => dot q e) E) Q.

(** [x or default] on an optional integer and on an optional float. *)
Definition or_int (x : option Z) (default : Z) : Z :=
  match x with
  | Some v => if (v =? 0)%Z then default else v
  | None => default
  end.

Definition or_float (x : option float) (default : float) : float :=
  match x with
  | Some v => if float_truthy v then v else default
  | None => default
  end.

(** [entry and entry.strip()] as a condition. *)
Definition nonblank (entry : str) : bool := truthy entry && truthy (strip entry).

Definition valid_data (entries : list str) : list (nat * str) :=
  filter (fun ie => nonblank (snd ie)) (enumerate entries).

(** The scoring loop: the pairs [(orig_idx, score)] of the valid entries
    whose score is [>= threshold], in the order of [valid_data]. *)
Fixpoint scored_entries (threshold : float) (valid : list (nat * str))
    (similarities : list float) : list scored :=
  match valid, similarities with
  | (orig_idx, _) :: valid', sim_score :: similarities' =>
      if (threshold <=? sim_score)%float
      then (orig_idx, sim_score) :: scored_entries threshold valid' similarities'
      else scored_entries threshold valid' similarities'
  | _, _ => []
  end.

(** [similarities[i] >= threshold] in the batched form, where
    [similarities[i]] is an [np.float32] scalar and [threshold] a Python
    float: the threshold is read at float32. *)
Definition float32_ge (sim threshold : float) : bool :=
  (to_float32 threshold <=? sim)%float.

(** The comprehension of the batched form:
    [[(valid_data[i][0], float(similarities[i]))
      for i in range(len(valid_data)) if similarities[i] >= threshold]]. *)
Fixpoint scored_entries_batch (threshold : float) (valid : list (nat * str))
    (similarities : list float) : list scored :=
  match valid, similarities with
  | (orig_idx, _) :: valid', sim :: similarities' =>
      if float32_ge sim threshold
      then (orig_idx, sim) :: scored_entries_batch threshold valid' similarities'
      else scored_entries_batch threshold valid' similarities'
  | _, _ => []
  end.

(** [[entries[idx] for idx, _ in ranked]]. *)
Definition lookup_entries (entries : list str) (ranked : list scored) : list str :=
  map (fun c => nth (fst c) entries []) ranked.

Section Service.

Variable isalnum : char -> bool.

(** The embedding model: one vector per text. *)
Variable embed : str -> vec.

Definition get_embeddings (texts : list str) : list vec :=
  match texts with
  | [] => []
  | _ => map embed (map (clean_for_embedding isalnum) texts)
  end.

(** The similarity of the query to each valid entry, in the order of
    [valid_data]. *)
Definition similarities (query : str) (valid : list (nat * str)) : list float :=
  let valid_entries := map snd valid in
  let query_embedding := nth 0 (get_embeddings [query]) [] in
  let entry_embeddings := get_embeddings valid_entries in
  dot_matrix_vector entry_embeddings query_embedding.

(** The scored entries kept and ordered by [find_similar_entries], before
    they are mapped back to the caller's strings. *)
Definition ranked_entries (query : str) (entries : list str)
    (top_k : option Z) (threshold : option float) : list scored :=
  if negb (truthy query) || negb (truthy entries) then []
  else
    let top_k := or_int top_k TOP_K in
    let threshold := or_float threshold SIMILARITY_THRESHOLD in
    let valid := valid_data entries in
    if negb (truthy valid) || negb (truthy (strip query)) then []
    else
      let scored := scored_entries threshold valid (similarities query valid) in
      slice_to top_k (sort_desc scored).

Definition find_similar_entries (query : str) (entries : list str)
    (top_k : option Z) (threshold : option float) : list str :=
  lookup_entries entries (ranked_entries query entries top_k threshold).

Definition find_similar_entries_batch (queries : list str) (entries : list str)
    (top_k : option Z) (threshold : option float) : list (list str) :=
  if negb (truthy queries) || negb (truthy entries)
  then (if truthy queries then map (fun _ => []) queries else [])
  else
    let top_k := or_int top_k TOP_K in
    let threshold := or_float threshold SIMILARITY_THRESHOLD in
    let valid := valid_data entries in
    if negb (truthy valid) then map (fun _ => []) queries
    else
      let valid_entries := map snd valid in
      let query_embeddings := get_embeddings queries in
      let entry_embeddings := get_embeddings valid_entries in
      let similarity_matrix := dot_matrix_transposed query_embeddings entry_embeddings in
      map (fun qs =>
             let query := fst qs in
             let similarities := snd qs in
             if negb (truthy query) || negb (truthy (strip query)) then []
             else
               let scored := scored_entries_batch threshold valid similarities in
               lookup_entries entries (slice_to top_k (sort_desc scored)))
          (combine queries similarity_matrix).

(** The [/similarity] request and the handler's answer. *)
Record SimilarityRequest := {
  user_id : str;
  query : str;
  entries : list str;
  top_k : option Z;
  threshold : option float
}.

Inductive response :=
| BadRequest
| Relevant (relevant_entries : list str).

(** [find_similar_entries] of [app/main.py]. *)
Definition similarity_endpoint (request : SimilarityRequest) : response :=
  if negb (truthy (strip (query request))) then BadRequest
  else if negb (truthy (entries request)) then Relevant []
  else
    let valid_entries := filter nonblank (entries request) in
    if negb (truthy valid_entries) then Relevant []
    else Relevant (find_similar_entries (query request) valid_entries
                     (top_k request) (threshold request)).

End Service.

End SimilarityService.

(** A small embedding model for the examples: two-dimensional unit vectors
    chosen by the length of the cleaned text. *)
Definition demo_embed (text : str) : SimilarityService.vec :=
  match length text with
  | 1 => [1; 0]
  | 2 => [0.6; 0.8]
  | 3 => [0.8; 0.6]
  | 4 => [0.96; 0.28]
  | _ => [0; 1]
  end%float.

(** ** The legacy normalizer *)

Module LegacyNormalizer.

Import TextProcessor.

(** Equality of two strings, as [word not in self.stopwords] decides it. *)
Fixpoint str_eqb (a b : str) : bool :=
  match a, b with
  | [], [] => true
  | x :: a', y :: b' => (x =? y)%N && str_eqb a' b'
  | _, _ => false
  end.

(** [word in stopwords]. *)
Definition member (word : str) (stopwords : list str) : bool :=
  existsb (str_eqb word) stopwords.

(** The characters of [string.punctuation]. *)
Definition is_punctuation (c : char) : bool :=
  ((33 <=? c) && (c <=? 47) || (58 <=? c) && (c <=? 64) ||
   (91 <=? c) && (c <=? 96) || (123 <=? c) && (c <=? 126))%N.

(** [text.translate(self.punct_table)]: the table deletes punctuation. *)
Definition translate (text : str) : str :=
  filter (fun c => negb (is_punctuation c)) text.

Definition ENGLISH_STOPWORDS : list str :=
  [py "i"; py "me"; py "my"; py "myself"; py "we"; py "our"; py "ours";
   py "ourselves"; py "you"; py "you're"; py "you've"; py "you'll";
   py "you'd"; py "your"; py "yours"; py "yourself"; py "yourselves";
   py "he"; py "him"; py "his"; py "himself"; py "she"; py "she's"; py "her";
   py "hers"; py "herself"; py "it"; py "it's"; py "its"; py "itself";
   py "they"; py "them"; py "their"; py "theirs"; py "themselves"; py "what";
   py "which"; py "who"; py "whom"; py "this"; py "that"; py "that'll";
   py "these"; py "those"; py "am"; py "is"; py "are"; py "was"; py "were";
   py "be"; py "been"; py "being"; py "have"; py "has"; py "had";
   py "having"; py "do"; py "does"; py "did"; py "doing"; py "a"; py "an";
   py "the"; py "and"; py "but"; py "if"; py "or"; py "because"; py "as";
   py "until"; py "while"; py "of"; py "at"; py "by"; py "for"; py "with";
   py "about"; py "against"; py "between"; py "into"; py "through";
   py "during"; py "before"; py "after"; py "above"; py "below"; py "to";
   py "from"; py "up"; py "down"; py "in"; py "out"; py "on"; py "off";
   py "over"; py "under"; py "again"; py "further"; py "then"; py "once";
   py "here"; py "there"; py "when"; py "where"; py "why"; py "how";
   py "all"; py "each"; py "few"; py "more"; py "most"; py "other";
   py "some"; py "such"; py "no"; py "nor"; py "not"; py "only"; py "own";
   py "same"; py "so"; py "than"; py "too"; py "very"; py "s"; py "t";
   py "can"; py "will"; py "just"; py "don"; py "don't"; py "should";
   py "should've"; py "now"; py "d"; py "ll"; py "m"; py "o"; py "re";
   py "ve"; py "y"; py "ain"; py "aren"; py "aren't"; py "couldn";
   py "couldn't"; py "didn"; py "didn't"; py "doesn"; py "doesn't";
   py "hadn"; py "hadn't"; py "hasn"; py "hasn't"; py "haven"; py "haven't";
   py "isn"; py "isn't"; py "ma"; py "mightn"; py "mightn't"; py "mustn";
   py "mustn't"; py "needn"; py "needn't"; py "shan"; py "shan't";
   py "shouldn"; py "shouldn't"; py "wasn"; py "wasn't"; py "weren";
   py "weren't"; py "won"; py "won't"; py "wouldn"; py "wouldn't"].

Section Normalize.

(** [str.lower] (the Unicode database's case mapping). *)
Variable lower : str -> str.

(** The processor's [self.stopwords]. *)
Variable stopwords : list str.

Definition normalize (text : str) : str :=
  if negb (truthy text) then []
  else
    let text := lower text in
    let text := translate text in
    let words := split text in
    let words := filter (fun word => negb (member word stopwords)) words in
    join [space] words.

Definition normalize_batch (texts : list str) : list str :=
  map normalize texts.

End Normalize.

End LegacyNormalizer.

(** [str.lower] on ASCII letters, for the examples. *)
Definition lower_ascii (text : str) : str :=
  map (fun c => if ((65 <=? c) && (c <=? 90))%N then (c + 32)%N else c) text.

(** ** The debug scoring path *)

Module DebugScores.

Import TextProcessor SimilarityService.

Definition scored_text := (str * float)%type.

(** [results.sort(key=lambda x: x[1], reverse=True)] on [(entry, score)]
    pairs: the same reverse, stable ascending sort, reverse.  Scores are not
    filtered here, so a NaN may be among them; what is proved of the result
    below holds of any rearrangement of the pairs. *)
Fixpoint insert (x : scored_text) (l : list scored_text) : list scored_text :=
  match l with
  | [] => [x]
  | y :: r => if (snd x <? snd y)%float then x :: l else y :: insert x r
  end.

Definition sort_desc (l : list scored_text) : list scored_text :=
  rev (fold_left (fun acc x => insert x acc) (rev l) []).

(** The loop that pairs each valid entry with its rounded score. *)
Fixpoint score_results (round4 : float -> float) (valid : list (nat * str))
    (similarities : list float) : list scored_text :=
  match valid, similarities with
  | (_, orig_entry) :: valid', sim :: similarities' =>
      (orig_entry, round4 sim) :: score_results round4 valid' similarities'
  | _, _ => []
  end.

(** [entry[:100] + "..." if len(entry) > 100 else entry]. *)
Definition display_entry (entry : str) : str :=
  if (100 <? length entry)%nat then firstn 100 entry ++ py "..." else entry.

Section Debug.

Variable isalnum : char -> bool.
Variable embed : str -> vec.

(** [round(x, 4)] on a float. *)
Variable round4 : float -> float.

Definition get_similarity_scores (query : str) (entries : list str)
    : list scored_text :=
  if negb (truthy query) || negb (truthy entries) then []
  else
    let valid := valid_data entries in
    if negb (truthy valid) || negb (truthy (strip query)) then []
    else
      let results :=
        score_results round4 valid (similarities isalnum embed query valid) in
      sort_desc results.

(** The body of the debug answer: only [scores] for a blank query or no
    entries, otherwise the request's fields and the displayed scores. *)
Inductive debug_response :=
| ScoresOnly (scores : list scored_text)
| Full (query : str) (top_k : option Z) (threshold : option float)
       (scores : list scored_text).

Definition debug_similarity (request : SimilarityRequest) : debug_response :=
  if negb (truthy (strip (query request))) || negb (truthy (entries request))
  then ScoresOnly []
  else
    let valid_entries := filter nonblank (entries request) in
    let scores := get_similarity_scores (query request) valid_entries in
    Full (query request) (top_k request) (threshold request)
         (map (fun es => (display_entry (fst es), snd es)) scores).

End Debug.

End DebugScores.

(** ** Specification predicates *)

(** Descending by score, and by original position among equal scores. *)
Definition ranked_before (a b : ListSort.scored) : Prop :=
  (snd b <? snd a)%float = true \/
  ((snd a =? snd b)%float = true /\ fst a < fst b).

Definition index_lt (a b : ListSort.scored) : Prop := fst a < fst b.

Definition not_nan (c : ListSort.scored) : Prop := is_nan (snd c) = false.

(** A supplied [top_k] is at least 1 (the request model admits 1..50);
    an absent one is always fine. *)
Definition top_k_positive (top_k : option Z) : bool :=
  match top_k with
  | Some k => (1 <=? k)%Z
  | None => true
  end.

(** The inputs for which no ranking is attempted: an empty query, an empty
    list of entries, or entries that are all empty once stripped. *)
Definition degenerate (query : str) (entries : list str) : Prop :=
  query = [] \/ entries = [] \/ Forall (fun e => TextProcessor.strip e = []) entries.

(** Shapes of cleaned text.  [b] says that the character before is a
    whitespace (or that the text starts here). *)

(** Every whitespace is a single [' '] with no whitespace before it. *)
Fixpoint collapsed (b : bool) (l : str) : bool :=
  match l with
  | [] => true
  | c :: r =>
      if py_isspace c then (c =? space)%N && negb b && collapsed true r
      else collapsed false r
  end.

(** As [collapsed], and the text does not end in a whitespace; from
    [b = true] it does not start with one either. *)
Fixpoint single_spaced (b : bool) (l : str) : bool :=
  match l with
  | [] => negb b
  | c :: r =>
      if py_isspace c then (c =? space)%N && negb b && single_spaced true r
      else single_spaced false r
  end.

(** No run of three or more characters of the class [p], [n] of them
    standing just before the text. *)
Fixpoint no_long_run (p : char -> bool) (n : nat) (l : str) : bool :=
  match l with
  | [] => true
  | c :: r => if p c then (n <? 2) && no_long_run p (S n) r else no_long_run p 0 r
  end.

(** [sep + sep.join(parts)] when there are parts, nothing otherwise. *)
Definition join_after (parts : list str) : str :=
  match parts with
  | [] => []
  | _ => space :: TextProcessor.join [space] parts
  end.

(** Two scored entries with the same score that stand for the same text in
    two lists of entries. *)
Definition same_entry (E1 E2 : list str) (c1 c2 : ListSort.scored) : Prop :=
  snd c1 = snd c2 /\ nth (fst c1) E1 [] = nth (fst c2) E2 [].

(** A token of [split]: not empty, and without whitespace. *)
Definition token (t : str) : Prop :=
  t <> [] /\ forallb TextProcessor.nonspace t = true.

(** The same model with float32 components, as the real one returns them. *)
Definition demo_embed32 (text : str) : SimilarityService.vec :=
  map to_float32 (demo_embed text).

(** * Examples *)

Example clean_basic :
  TextProcessor.clean_for_embedding isalnum_ascii (py "Hello   WORLD  ") = py "Hello WORLD".
Proof. reflexivity. Qed.

Example clean_special :
  TextProcessor.clean_for_embedding isalnum_ascii (py "Hello!!! *** world") = py "Hello world".
Proof. reflexivity. Qed.

Example find_demo :
  SimilarityService.find_similar_entries isalnum_ascii demo_embed (py "q")
    [py "ab"; py "  "; py "abc"; py "abcde"; py "x"] None None
  = [py "x"; py "abc"; py "ab"].
Proof. vm_compute. reflexivity. Qed.

Example batch_demo :
  SimilarityService.find_similar_entries_batch isalnum_ascii demo_embed [py "q"; py " "; py "abcdef"]
    [py "ab"; py "  "; py "abc"; py "abcde"; py "x"] None None
  = [[py "x"; py "abc"; py "ab"]; []; [py "abcde"; py "ab"; py "abc"]].
Proof. vm_compute. reflexivity. Qed.

(** * The order on floats *)

Lemma SFcompare_cases x y :
  x <> S754_nan -> y <> S754_nan ->
  (SFcompare x y = Some Lt /\ klt (sf_key x) (sf_key y)) \/
  (SFcompare x y = Some Eq /\ sf_key x = sf_key y) \/
  (SFcompare x y = Some Gt /\ klt (sf_key y) (sf_key x)).
Proof.
  intros Hx Hy.
  destruct x as [sx|sx| |sx mx ex], y as [sy|sy| |sy my ey];
    try congruence; try destruct sx; try destruct sy; cbn;
    try (left; split; [reflexivity|lia]);
    try (right; left; split; reflexivity);
    try (right; right; split; [reflexivity|lia]);
    change (Pos.compare_cont Eq mx my) with (Pos.compare mx my);
    destruct (Z.compare_spec ex ey) as [E|E|E];
    try (left; split; [reflexivity|lia]);
    try (right; right; split; [reflexivity|lia]);
    subst; destruct (Pos.compare_spec mx my) as [M|M|M]; cbn;
    try (left; split; [reflexivity|lia]);
    try (right; right; split; [reflexivity|lia]);
    subst; right; left; split; reflexivity.
Qed.

Lemma klt_irrefl a : ~ klt a a.
Proof. destruct a as [[a1 a2] a3]; cbn; lia. Qed.

Lemma klt_asym a b : klt a b -> ~ klt b a.
Proof. destruct a as [[a1 a2] a3], b as [[b1 b2] b3]; cbn; lia. Qed.

Lemma klt_trans a b c : klt a b -> klt b c -> klt a c.
Proof.
  destruct a as [[a1 a2] a3], b as [[b1 b2] b3], c as [[c1 c2] c3]; cbn; lia.
Qed.

Lemma klt_total a b : klt a b \/ a = b \/ klt b a.
Proof.
  destruct a as [[a1 a2] a3], b as [[b1 b2] b3]; cbn.
  destruct (Z.lt_trichotomy a1 b1) as [?|[?|?]]; try lia.
  destruct (Z.lt_trichotomy a2 b2) as [?|[?|?]]; try lia.
  destruct (Z.lt_trichotomy a3 b3) as [?|[?|?]]; try lia.
  subst; auto.
Qed.

Lemma is_nan_spec x : is_nan x = false <-> Prim2SF x <> S754_nan.
Proof.
  unfold is_nan. rewrite eqb_spec. unfold SFeqb.
  destruct (Prim2SF x) as [s|s| |s m e] eqn:E; cbn.
  - split; [congruence|reflexivity].
  - destruct s; cbn; split; (congruence || reflexivity).
  - split; [discriminate | congruence].
  - destruct s; rewrite Z.compare_refl;
      change (Pos.compare_cont Eq m m) with (Pos.compare m m);
      rewrite Pos.compare_refl; cbn; split; (congruence || reflexivity).
Qed.

Lemma ltb_key x y : is_nan x = false -> is_nan y = false ->
  ((x <? y)%float = true <-> klt (key x) (key y)).
Proof.
  intros Hx%is_nan_spec Hy%is_nan_spec. rewrite ltb_spec. unfold SFltb, key.
  destruct (SFcompare_cases _ _ Hx Hy) as [[-> H]|[[-> H]|[-> H]]].
  - tauto.
  - split; [discriminate|]. rewrite H. intros K; destruct (klt_irrefl _ K).
  - split; [discriminate|]. intros K; destruct (klt_asym _ _ H K).
Qed.

Lemma eqb_key x y : is_nan x = false -> is_nan y = false ->
  ((x =? y)%float = true <-> key x = key y).
Proof.
  intros Hx%is_nan_spec Hy%is_nan_spec. rewrite eqb_spec. unfold SFeqb, key.
  destruct (SFcompare_cases _ _ Hx Hy) as [[-> H]|[[-> H]|[-> H]]].
  - split; [discriminate|]. intros K; rewrite K in H; destruct (klt_irrefl _ H).
  - tauto.
  - split; [discriminate|]. intros K; rewrite K in H; destruct (klt_irrefl _ H).
Qed.

Lemma leb_key x y : is_nan x = false -> is_nan y = false ->
  ((x <=? y)%float = true <-> klt (key x) (key y) \/ key x = key y).
Proof.
  intros Hx%is_nan_spec Hy%is_nan_spec. rewrite leb_spec. unfold SFleb, key.
  destruct (SFcompare_cases _ _ Hx Hy) as [[-> H]|[[-> H]|[-> H]]].
  - tauto.
  - tauto.
  - split; [discriminate|]. intros [K|K].
    + destruct (klt_asym _ _ H K).
    + rewrite K in H; destruct (klt_irrefl _ H).
Qed.

Lemma leb_not_nan x y :
  (x <=? y)%float = true -> is_nan x = false /\ is_nan y = false.
Proof.
  rewrite leb_spec. unfold SFleb. intros H.
  split; apply is_nan_spec; intros E; rewrite E in H;
    destruct (Prim2SF x), (Prim2SF y); cbn in H; discriminate.
Qed.

Lemma ltb_false_key x y : is_nan x = false -> is_nan y = false ->
  ((x <? y)%float = false <-> klt (key y) (key x) \/ key x = key y).
Proof.
  intros Hx Hy. rewrite <- Bool.not_true_iff_false, (ltb_key x y Hx Hy).
  destruct (klt_total (key x) (key y)) as [H|[H|H]]; split; intros K; auto.
  - tauto.
  - destruct K as [K|K]; [destruct (klt_asym _ _ H K)|].
    rewrite K in H. destruct (klt_irrefl _ H).
  - intros L. rewrite H in L. destruct (klt_irrefl _ L).
  - intros L. destruct (klt_asym _ _ H L).
Qed.

(** * The stable descending sort *)

Section SortFacts.

Import ListSort.

Lemma ranked_before_key a b : not_nan a -> not_nan b ->
  (ranked_before a b <->
   klt (key (snd b)) (key (snd a)) \/
   (key (snd a) = key (snd b) /\ fst a < fst b)).
Proof.
  intros Ha Hb. unfold ranked_before.
  rewrite (ltb_key _ _ Hb Ha), (eqb_key _ _ Ha Hb). tauto.
Qed.

Lemma ranked_before_trans a b c :
  not_nan a -> not_nan b -> not_nan c ->
  ranked_before a b -> ranked_before b c -> ranked_before a c.
Proof.
  intros Ha Hb Hc.
  rewrite !ranked_before_key by assumption.
  intros [H1|[H1 I1]] [H2|[H2 I2]].
  - left. eapply klt_trans; eassumption.
  - left. rewrite <- H2. assumption.
  - left. rewrite H1. assumption.
  - right. split; [congruence|lia].
Qed.

Lemma insert_In x l y : In y (insert x l) <-> y = x \/ In y l.
Proof.
  induction l as [|z r IH]; cbn [insert].
  - cbn. intuition congruence.
  - destruct (key_lt x z); cbn [In]; rewrite ?IH; intuition congruence.
Qed.

Lemma insert_length x l : length (insert x l) = S (length l).
Proof.
  induction l as [|z r IH]; cbn [insert]; [reflexivity|].
  destruct (key_lt x z); cbn [length]; [reflexivity|].
  rewrite IH. reflexivity.
Qed.

(** Inserting the element that came first originally keeps the ascending
    list ordered with later positions first among equal keys. *)
Lemma insert_sorted x l :
  not_nan x -> Forall not_nan l -> Forall (index_lt x) l ->
  StronglySorted (fun a b => ranked_before b a) l ->
  StronglySorted (fun a b => ranked_before b a) (insert x l).
Proof.
  intros Hx Hn Hi Hs.
  induction Hs as [|y r Hs IH Hy]; cbn.
  - repeat constructor.
  - inversion Hn as [|? ? Hny Hnr]; subst.
    inversion Hi as [|? ? Hiy Hir]; subst.
    unfold key_lt. destruct (snd x <? snd y)%float eqn:E.
    + constructor; [constructor; assumption|].
      assert (Hyx : ranked_before y x) by (left; exact E).
      constructor; [exact Hyx|].
      rewrite Forall_forall in Hy, Hnr |- *. intros z Hz.
      apply (ranked_before_trans z y x); auto.
    + constructor; [apply IH; assumption|].
      rewrite Forall_forall in Hy |- *. intros z Hz.
      apply insert_In in Hz. destruct Hz as [->|Hz]; [|auto].
      apply ranked_before_key; [assumption..|].
      apply (ltb_false_key _ _ Hx Hny) in E. destruct E as [E|E]; [left; exact E|].
      right. split; [exact E|exact Hiy].
Qed.

Lemma sort_asc_snoc l x : sort_asc (l ++ [x]) = insert x (sort_asc l).
Proof. unfold sort_asc. rewrite fold_left_app. reflexivity. Qed.

Lemma sort_desc_cons x l : sort_desc (x :: l) = rev (insert x (sort_asc (rev l))).
Proof. unfold sort_desc. cbn [rev]. rewrite sort_asc_snoc. reflexivity. Qed.

Lemma sort_asc_rev_In l y : In y (sort_asc (rev l)) <-> In y l.
Proof.
  induction l as [|x l IH]; cbn [rev].
  - cbn. tauto.
  - rewrite sort_asc_snoc, insert_In, IH. cbn. intuition congruence.
Qed.

Lemma sort_desc_In l y : In y (sort_desc l) <-> In y l.
Proof. unfold sort_desc. rewrite <- in_rev. apply sort_asc_rev_In. Qed.

Lemma sort_desc_length l : length (sort_desc l) = length l.
Proof.
  unfold sort_desc. rewrite length_rev.
  induction l as [|x l IH]; cbn [rev]; [reflexivity|].
  rewrite sort_asc_snoc, insert_length, IH. reflexivity.
Qed.

Lemma sort_asc_rev_sorted l :
  Forall not_nan l -> StronglySorted index_lt l ->
  StronglySorted (fun a b => ranked_before b a) (sort_asc (rev l)).
Proof.
  intros Hn Hs. induction Hs as [|x l Hs IH Hx]; cbn [rev].
  - constructor.
  - inversion Hn as [|? ? Hnx Hnl]; subst.
    rewrite sort_asc_snoc. apply insert_sorted.
    + assumption.
    + rewrite Forall_forall in Hnl |- *. intros y Hy.
      apply Hnl, sort_asc_rev_In, Hy.
    + rewrite Forall_forall in Hx |- *. intros y Hy.
      apply Hx, sort_asc_rev_In, Hy.
    + apply IH, Hnl.
Qed.

Lemma StronglySorted_app_inv {A} (R : A -> A -> Prop) l x :
  StronglySorted R l -> Forall (fun y => R y x) l -> StronglySorted R (l ++ [x]).
Proof.
  intros Hs Hf. induction Hs as [|y r Hs IH Hy]; cbn.
  - repeat constructor.
  - inversion Hf; subst. constructor; [auto|].
    apply Forall_app. split; [assumption|]. repeat constructor. assumption.
Qed.

Lemma StronglySorted_rev {A} (R : A -> A -> Prop) l :
  StronglySorted (fun a b => R b a) l -> StronglySorted R (rev l).
Proof.
  intros Hs. induction Hs as [|y r Hs IH Hy]; cbn.
  - constructor.
  - apply StronglySorted_app_inv; [assumption|].
    rewrite Forall_forall in Hy |- *. intros z Hz. apply Hy, in_rev, Hz.
Qed.

Lemma sort_desc_sorted l :
  Forall not_nan l -> StronglySorted index_lt l ->
  StronglySorted ranked_before (sort_desc l).
Proof.
  intros Hn Hs. unfold sort_desc.
  apply StronglySorted_rev, sort_asc_rev_sorted; assumption.
Qed.

Lemma firstn_incl {A} n (l : list A) x : In x (firstn n l) -> In x l.
Proof.
  revert n. induction l as [|y r IH]; intros [|n]; cbn; try tauto.
  intros [H|H]; [left; exact H|right; eapply IH; exact H].
Qed.

Lemma StronglySorted_firstn {A} (R : A -> A -> Prop) n l :
  StronglySorted R l -> StronglySorted R (firstn n l).
Proof.
  intros Hs. revert n. induction Hs as [|y r Hs IH Hy]; intros [|n]; cbn;
    try constructor.
  - apply IH.
  - rewrite Forall_forall in Hy |- *. intros z Hz.
    apply Hy. eapply firstn_incl; exact Hz.
Qed.

End SortFacts.

(** * Candidates, filtering and truncation *)

Section RankingFacts.

Import TextProcessor ListSort SimilarityService.

Lemma enumerate_from_nth {A} (l : list A) i j x :
  In (j, x) (enumerate_from i l) -> i <= j /\ nth_error l (j - i) = Some x.
Proof.
  revert i. induction l as [|y r IH]; intros i; cbn; [tauto|].
  intros [H|H].
  - inversion H; subst. rewrite Nat.sub_diag. auto.
  - apply IH in H. destruct H as [Hle Hn].
    split; [lia|]. replace (j - i) with (S (j - S i)) by lia. exact Hn.
Qed.

Lemma enumerate_from_sorted {A} (l : list A) i :
  StronglySorted (fun a b => fst a < fst b) (enumerate_from i l) /\
  Forall (fun a => i <= fst a) (enumerate_from i l).
Proof.
  revert i. induction l as [|y r IH]; intros i; cbn.
  - split; constructor.
  - destruct (IH (S i)) as [Hs Hf]. split.
    + constructor; [exact Hs|].
      eapply Forall_impl; [|exact Hf]. cbn. intros; lia.
    + constructor; [cbn; lia|].
      eapply Forall_impl; [|exact Hf]. cbn. intros; lia.
Qed.

Lemma StronglySorted_filter {A} (R : A -> A -> Prop) f l :
  StronglySorted R l -> StronglySorted R (filter f l).
Proof.
  intros Hs. induction Hs as [|y r Hs IH Hy]; cbn; [constructor|].
  destruct (f y); [|exact IH].
  constructor; [exact IH|].
  rewrite Forall_forall in Hy |- *. intros z Hz.
  apply Hy. apply filter_In in Hz. tauto.
Qed.

Lemma valid_data_sorted entries :
  StronglySorted (fun a b => fst a < fst b) (valid_data entries).
Proof. apply StronglySorted_filter, enumerate_from_sorted. Qed.

Lemma valid_data_nth entries i e :
  In (i, e) (valid_data entries) -> nth_error entries i = Some e /\ nonblank e = true.
Proof.
  unfold valid_data. rewrite filter_In. cbn. intros [H Hn].
  apply enumerate_from_nth in H. rewrite Nat.sub_0_r in H. tauto.
Qed.

(** The filter step keeps exactly the candidates at or above the threshold. *)
Lemma scored_entries_In threshold valid sims c :
  In c (scored_entries threshold valid sims) <->
  In c (combine (map fst valid) sims) /\ (threshold <=? snd c)%float = true.
Proof.
  revert sims. induction valid as [|[i e] valid IH]; intros [|s sims]; cbn;
    try tauto.
  destruct (threshold <=? s)%float eqn:E; cbn; rewrite IH.
  - split.
    + intros [<-|[H1 H2]]; cbn; auto.
    + intros [[<-|H1] H2]; auto.
  - split.
    + intros [H1 H2]; auto.
    + intros [[<-|H1] H2]; [cbn in H2; congruence|auto].
Qed.

Lemma scored_entries_valid threshold valid sims c :
  In c (scored_entries threshold valid sims) -> exists e, In (fst c, e) valid.
Proof.
  rewrite scored_entries_In. intros [H _].
  destruct c as [i s]. apply in_combine_l in H.
  apply in_map_iff in H. destruct H as [[i' e] [Hi H]]. cbn in Hi. subst.
  exists e. exact H.
Qed.

Lemma scored_entries_sorted threshold valid sims :
  StronglySorted (fun a b => fst a < fst b) valid ->
  StronglySorted index_lt (scored_entries threshold valid sims).
Proof.
  intros Hs. revert sims.
  induction Hs as [|[i e] valid Hs IH Hy]; intros [|s sims]; cbn;
    try constructor.
  destruct (threshold <=? s)%float; [|apply IH].
  constructor; [apply IH|].
  rewrite Forall_forall in Hy |- *. intros c Hc.
  apply scored_entries_valid in Hc. destruct Hc as [e' He'].
  apply (Hy _ He').
Qed.

Lemma scored_entries_not_nan threshold valid sims :
  Forall not_nan (scored_entries threshold valid sims).
Proof.
  rewrite Forall_forall. intros c Hc. apply scored_entries_In in Hc.
  destruct Hc as [_ Hc]. apply leb_not_nan in Hc. apply Hc.
Qed.

Lemma slice_to_incl {A} k (l : list A) x : In x (slice_to k l) -> In x l.
Proof. unfold slice_to. destruct (0 <=? k)%Z; apply firstn_incl. Qed.

Lemma slice_to_sorted {A} (R : A -> A -> Prop) k l :
  StronglySorted R l -> StronglySorted R (slice_to k l).
Proof. unfold slice_to. destruct (0 <=? k)%Z; apply StronglySorted_firstn. Qed.

Lemma slice_to_length {A} k (l : list A) :
  (0 <= k)%Z -> (Z.of_nat (length (slice_to k l)) <= k)%Z.
Proof.
  intros Hk. unfold slice_to. apply Z.leb_le in Hk. rewrite Hk.
  pose proof (firstn_le_length (Z.to_nat k) l). apply Z.leb_le in Hk. lia.
Qed.

Lemma StronglySorted_nth {A} (R : A -> A -> Prop) l i j a b :
  StronglySorted R l -> i < j ->
  nth_error l i = Some a -> nth_error l j = Some b -> R a b.
Proof.
  intros Hs. revert i j. induction Hs as [|y r Hs IH Hy]; intros i j Hij Hi Hj.
  - destruct i; discriminate.
  - destruct j as [|j]; [lia|]. cbn in Hj. destruct i as [|i]; cbn in Hi.
    + inversion Hi; subst. rewrite Forall_forall in Hy.
      apply Hy. eapply nth_error_In; exact Hj.
    + apply (IH i j); [lia|assumption..].
Qed.

Variable isalnum : char -> bool.
Variable embed : str -> vec.

Lemma lookup_entries_length entries ranked :
  length (lookup_entries entries ranked) = length ranked.
Proof. apply length_map. Qed.

(** What [ranked_entries] returns is a part of the filtered, sorted list. *)
Lemma ranked_entries_cases query entries top_k threshold :
  ranked_entries isalnum embed query entries top_k threshold = [] \/
  ranked_entries isalnum embed query entries top_k threshold =
    slice_to (or_int top_k TOP_K)
      (sort_desc (scored_entries (or_float threshold SIMILARITY_THRESHOLD)
         (valid_data entries)
         (similarities isalnum embed query (valid_data entries)))).
Proof.
  unfold ranked_entries.
  destruct (negb (truthy query) || negb (truthy entries)); [left; reflexivity|].
  destruct (negb (truthy (valid_data entries)) || negb (truthy (strip query)));
    [left; reflexivity|right; reflexivity].
Qed.

Lemma ranked_entries_sorted query entries top_k threshold :
  StronglySorted ranked_before
    (ranked_entries isalnum embed query entries top_k threshold).
Proof.
  destruct (ranked_entries_cases query entries top_k threshold) as [-> | ->].
  - constructor.
  - apply slice_to_sorted, sort_desc_sorted.
    + apply scored_entries_not_nan.
    + apply scored_entries_sorted, valid_data_sorted.
Qed.

Lemma ranked_entries_scored query entries top_k threshold c :
  In c (ranked_entries isalnum embed query entries top_k threshold) ->
  In c (scored_entries (or_float threshold SIMILARITY_THRESHOLD)
          (valid_data entries)
          (similarities isalnum embed query (valid_data entries))).
Proof.
  destruct (ranked_entries_cases query entries top_k threshold) as [-> | ->].
  - intros [].
  - intros H. apply slice_to_incl in H.
    apply (proj1 (sort_desc_In _ _)) in H. exact H.
Qed.

Lemma ranked_entries_lookup query entries top_k threshold c :
  In c (ranked_entries isalnum embed query entries top_k threshold) ->
  exists e, nth_error entries (fst c) = Some e /\ nonblank e = true /\
            nth (fst c) entries [] = e.
Proof.
  intros H. apply ranked_entries_scored, scored_entries_valid in H.
  destruct H as [e He]. apply valid_data_nth in He. destruct He as [He Hb].
  exists e. repeat split; try assumption.
  apply nth_error_nth. exact He.
Qed.

End RankingFacts.

(** * Ranking: order, filter, truncation, original text *)

Import TextProcessor ListSort SimilarityService.

(** C2: the entries [find_similar_entries] returns are in descending order of
    similarity score, and two returned entries with equal scores keep their
    original relative order in the caller's list.  Position [i] of the result
    is the caller's entry at the original index of the [i]-th ranked score. *)
Theorem find_similar_entries_sorted_stable
    isalnum embed query entries top_k threshold i j a b :
  i < j ->
  nth_error (ranked_entries isalnum embed query entries top_k threshold) i = Some a ->
  nth_error (ranked_entries isalnum embed query entries top_k threshold) j = Some b ->
  (snd b <=? snd a)%float = true /\
  ((snd a =? snd b)%float = true -> fst a < fst b) /\
  nth_error (find_similar_entries isalnum embed query entries top_k threshold) i
    = nth_error entries (fst a) /\
  nth_error (find_similar_entries isalnum embed query entries top_k threshold) j
    = nth_error entries (fst b).
Proof.
  intros Hij Ha Hb.
  pose proof (ranked_entries_sorted isalnum embed query entries top_k threshold) as Hs.
  pose proof (StronglySorted_nth _ _ _ _ _ _ Hs Hij Ha Hb) as R.
  assert (Na : not_nan a).
  { apply nth_error_In, ranked_entries_scored in Ha.
    pose proof (scored_entries_not_nan
      (or_float threshold SIMILARITY_THRESHOLD) (valid_data entries)
      (similarities isalnum embed query (valid_data entries))) as F.
    rewrite Forall_forall in F. apply F, Ha. }
  assert (Nb : not_nan b).
  { apply nth_error_In, ranked_entries_scored in Hb.
    pose proof (scored_entries_not_nan
      (or_float threshold SIMILARITY_THRESHOLD) (valid_data entries)
      (similarities isalnum embed query (valid_data entries))) as F.
    rewrite Forall_forall in F. apply F, Hb. }
  apply (ranked_before_key a b Na Nb) in R.
  assert (L : forall n c,
    nth_error (ranked_entries isalnum embed query entries top_k threshold) n = Some c ->
    nth_error (find_similar_entries isalnum embed query entries top_k threshold) n
      = nth_error entries (fst c)).
  { intros n c Hc. unfold find_similar_entries, lookup_entries.
    rewrite nth_error_map. unfold scored in *. rewrite Hc. cbn.
    apply nth_error_In, ranked_entries_lookup in Hc.
    destruct Hc as [e [He [_ Hn]]]. rewrite Hn, He. reflexivity. }
  repeat split.
  - apply (leb_key _ _ Nb Na). destruct R as [R|[R _]]; [left; exact R|right; congruence].
  - intros E. apply (eqb_key _ _ Na Nb) in E.
    destruct R as [R|[_ R]]; [|exact R].
    rewrite E in R. destruct (klt_irrefl _ R).
  - apply L, Ha.
  - apply L, Hb.
Qed.

Lemma sorted_stable_witness :
  (snd (1, 0.6%float) <=? snd (0, 0.6%float))%float = true /\
  ((snd (0, 0.6%float) =? snd (1, 0.6%float))%float = true -> 0 < 1) /\
  nth_error (find_similar_entries isalnum_ascii demo_embed (py "q")
               [py "ab"; py "cd"; py "x"] None None) 1
    = nth_error [py "ab"; py "cd"; py "x"] 0 /\
  nth_error (find_similar_entries isalnum_ascii demo_embed (py "q")
               [py "ab"; py "cd"; py "x"] None None) 2
    = nth_error [py "ab"; py "cd"; py "x"] 1.
Proof.
  apply (find_similar_entries_sorted_stable isalnum_ascii demo_embed (py "q")
           [py "ab"; py "cd"; py "x"] None None 1 2 (0, 0.6%float) (1, 0.6%float)).
  - lia.
  - vm_compute. reflexivity.
  - vm_compute. reflexivity.
Defined.

(** C3: the filter step keeps exactly the candidates whose similarity score
    is at or above the effective threshold (a score equal to the threshold is
    kept), and every entry that is returned has such a score. *)
Theorem filter_keeps_scores_at_or_above_threshold
    isalnum embed query entries top_k threshold c :
  (In c (scored_entries (or_float threshold SIMILARITY_THRESHOLD)
           (valid_data entries)
           (similarities isalnum embed query (valid_data entries))) <->
   In c (combine (map fst (valid_data entries))
           (similarities isalnum embed query (valid_data entries))) /\
   (or_float threshold SIMILARITY_THRESHOLD <=? snd c)%float = true) /\
  (In c (ranked_entries isalnum embed query entries top_k threshold) ->
   (or_float threshold SIMILARITY_THRESHOLD <=? snd c)%float = true).
Proof.
  split.
  - apply scored_entries_In.
  - intros H. apply ranked_entries_scored, scored_entries_In in H. apply H.
Qed.

(** C5, as the code has it: when [top_k] is not supplied, or is supplied and
    at least 1, the result has at most [top_k] entries (5 when absent). *)
Theorem find_similar_entries_length_bound
    isalnum embed query entries top_k threshold :
  top_k_positive top_k = true ->
  (Z.of_nat (length (find_similar_entries isalnum embed query entries top_k threshold))
   <= match top_k with Some k => k | None => TOP_K end)%Z.
Proof.
  intros Hk. unfold find_similar_entries. rewrite lookup_entries_length.
  assert (E : or_int top_k TOP_K = match top_k with Some k => k | None => TOP_K end).
  { destruct top_k as [k|]; cbn in *; [|reflexivity].
    apply Z.leb_le in Hk. destruct (Z.eqb_spec k 0); [lia|reflexivity]. }
  assert (P : (0 <= or_int top_k TOP_K)%Z).
  { rewrite E. destruct top_k as [k|]; cbn in *; [apply Z.leb_le in Hk; lia|].
    unfold TOP_K. lia. }
  rewrite <- E.
  destruct (ranked_entries_cases isalnum embed query entries top_k threshold) as [-> | ->].
  - cbn. exact P.
  - apply slice_to_length, P.
Qed.

Lemma length_bound_witness :
  (Z.of_nat (length (find_similar_entries isalnum_ascii demo_embed (py "q")
      [py "a"; py "b"; py "c"; py "d"; py "e"; py "f"; py "g"; py "h"; py "i"; py "j"]
      (Some 3%Z) None)) <= 3)%Z.
Proof.
  apply (find_similar_entries_length_bound isalnum_ascii demo_embed (py "q")
      [py "a"; py "b"; py "c"; py "d"; py "e"; py "f"; py "g"; py "h"; py "i"; py "j"]
      (Some 3%Z) None).
  reflexivity.
Defined.

(** C5 as stated fails: with [top_k = -1] the slice drops only the last of
    three scored entries, and with [top_k = 0] the default 5 is applied. *)
Lemma length_bound_counterexample :
  ~ (Z.of_nat (length (find_similar_entries isalnum_ascii demo_embed (py "q")
        [py "x"; py "y"; py "z"] (Some (-1)%Z) None)) <= -1)%Z /\
  ~ (Z.of_nat (length (find_similar_entries isalnum_ascii demo_embed (py "q")
        [py "x"; py "y"; py "z"] (Some 0%Z) None)) <= 0)%Z.
Proof.
  split; intros H; vm_compute in H; apply H; reflexivity.
Qed.

(** C7: every string [find_similar_entries] returns is the caller's own
    entry, verbatim, at the original index of a retained candidate; the
    cleaned text given to the model is not what is returned. *)
Theorem find_similar_entries_returns_original
    isalnum embed query entries top_k threshold i s :
  nth_error (find_similar_entries isalnum embed query entries top_k threshold) i = Some s ->
  In s entries /\
  exists c,
    nth_error (ranked_entries isalnum embed query entries top_k threshold) i = Some c /\
    nth_error entries (fst c) = Some s.
Proof.
  unfold find_similar_entries, lookup_entries. rewrite nth_error_map.
  match goal with
  | |- option_map _ ?x = _ -> _ => destruct x as [c|] eqn:Hc
  end; cbn [option_map]; [|intros H; discriminate H].
  intros [= <-]. pose proof Hc as Hi.
  apply nth_error_In, ranked_entries_lookup in Hc.
  destruct Hc as [e [He [_ Hn]]]. rewrite Hn.
  split; [eapply nth_error_In; exact He|].
  exists c. split; [exact Hi|exact He].
Qed.

Lemma returns_original_witness :
  In (py "  a b!!!  ") [py "abcde"; py "  a b!!!  "] /\
  exists c,
    nth_error (ranked_entries isalnum_ascii demo_embed (py "q")
                 [py "abcde"; py "  a b!!!  "] None None) 0 = Some c /\
    nth_error [py "abcde"; py "  a b!!!  "] (fst c) = Some (py "  a b!!!  ").
Proof.
  apply (find_similar_entries_returns_original isalnum_ascii demo_embed (py "q")
           [py "abcde"; py "  a b!!!  "] None None 0 (py "  a b!!!  ")).
  vm_compute. reflexivity.
Defined.

(** * Defaults *)

Lemma or_int_default : or_int None TOP_K = 5%Z.
Proof. reflexivity. Qed.

Lemma or_float_default : or_float None SIMILARITY_THRESHOLD = 0.3%float.
Proof. reflexivity. Qed.

Lemma or_int_supplied k : (1 <= k <= 50)%Z -> or_int (Some k) TOP_K = k.
Proof. intros H. cbn. destruct (Z.eqb_spec k 0); [lia|reflexivity]. Qed.

Lemma or_float_supplied t :
  (t =? 0)%float = false -> or_float (Some t) SIMILARITY_THRESHOLD = t.
Proof. intros H. unfold or_float, float_truthy. rewrite H. reflexivity. Qed.

(** C1, where the code departs from it: a supplied [threshold = 0.0] is
    falsy, so [threshold or SIMILARITY_THRESHOLD] applies 0.3 instead.  The
    entry ["abcd"] scores 0.28, which is at least 0.0, yet it is filtered out
    and the result is the one the default threshold gives. *)
Theorem explicit_zero_threshold_is_replaced :
  or_float (Some 0%float) SIMILARITY_THRESHOLD = 0.3%float /\
  similarities isalnum_ascii demo_embed (py "hello")
    (valid_data [py "abcd"; py "ab"]) = [0.28; 0.8]%float /\
  (0 <=? 0.28)%float = true /\
  find_similar_entries isalnum_ascii demo_embed (py "hello")
    [py "abcd"; py "ab"] None (Some 0%float) = [py "ab"] /\
  find_similar_entries isalnum_ascii demo_embed (py "hello")
    [py "abcd"; py "ab"] None None = [py "ab"].
Proof. repeat split; vm_compute; reflexivity. Qed.

(** * Degenerate inputs *)

Lemma nonblank_stripped_empty e : strip e = [] -> nonblank e = false.
Proof. intros H. unfold nonblank. rewrite H. apply andb_false_r. Qed.

Lemma filter_all_blank (entries : list str) :
  Forall (fun e => strip e = []) entries -> filter nonblank entries = [].
Proof.
  induction 1 as [|e r He Hr IH]; cbn; [reflexivity|].
  rewrite (nonblank_stripped_empty e He). exact IH.
Qed.

Lemma enumerate_from_all_blank (entries : list str) i :
  Forall (fun e => strip e = []) entries ->
  filter (fun ie => nonblank (snd ie)) (enumerate_from i entries) = [].
Proof.
  intros H. revert i. induction H as [|e r He Hr IH]; intros i; cbn; [reflexivity|].
  rewrite (nonblank_stripped_empty e He). apply IH.
Qed.

Lemma ranked_entries_degenerate isalnum embed query entries top_k threshold :
  degenerate query entries ->
  ranked_entries isalnum embed query entries top_k threshold = [].
Proof.
  intros [->|[->|H]]; unfold ranked_entries.
  - reflexivity.
  - rewrite orb_true_r. reflexivity.
  - destruct (negb (truthy query) || negb (truthy entries)); [reflexivity|].
    unfold valid_data, enumerate. rewrite (enumerate_from_all_blank entries 0 H).
    reflexivity.
Qed.

(** C6: when the query is empty, the list of entries is empty, or every entry
    is blank once stripped, [find_similar_entries] returns the empty list
    (it is a value, nothing is raised, and the model is not consulted).  The
    HTTP handler answers such a request with an empty list too, except that
    it rejects a blank query before looking at the entries. *)
Theorem degenerate_inputs_give_empty_result
    isalnum embed uid query entries top_k threshold :
  degenerate query entries ->
  find_similar_entries isalnum embed query entries top_k threshold = [] /\
  (similarity_endpoint isalnum embed
     (Build_SimilarityRequest uid query entries top_k threshold) = Relevant [] \/
   (strip query = [] /\
    similarity_endpoint isalnum embed
      (Build_SimilarityRequest uid query entries top_k threshold) = BadRequest)).
Proof.
  intros H. split.
  - unfold find_similar_entries.
    rewrite (ranked_entries_degenerate _ _ _ _ _ _ H). reflexivity.
  - unfold similarity_endpoint. cbn [SimilarityService.query SimilarityService.entries
      SimilarityService.top_k SimilarityService.threshold].
    destruct (strip query) as [|c r] eqn:Hq; cbn [truthy negb].
    + right. split; reflexivity.
    + left. destruct H as [->|[->|H]].
      * cbn in Hq. discriminate.
      * reflexivity.
      * destruct entries as [|e es]; [reflexivity|]. cbn [truthy negb].
        rewrite (filter_all_blank _ H). reflexivity.
Qed.

Lemma degenerate_witness :
  find_similar_entries isalnum_ascii demo_embed (py "happy") [py ""; py "   "] None None = [] /\
  (similarity_endpoint isalnum_ascii demo_embed
     (Build_SimilarityRequest (py "u1") (py "happy") [py ""; py "   "] None None)
     = Relevant [] \/
   (strip (py "happy") = [] /\
    similarity_endpoint isalnum_ascii demo_embed
      (Build_SimilarityRequest (py "u1") (py "happy") [py ""; py "   "] None None)
      = BadRequest)).
Proof.
  apply (degenerate_inputs_give_empty_result isalnum_ascii demo_embed
           (py "u1") (py "happy") [py ""; py "   "] None None).
  right. right. repeat constructor.
Defined.

(** * Cosine similarity *)

(** C9: if the norm of either vector is zero, [compute_cosine_similarity]
    takes the zero-vector return and its value is exactly 0.0; the division
    is reached only when neither norm equals zero, and then divides the dot
    product by the product of the norms. *)
Theorem cosine_zero_norm_guard vec1 vec2 :
  ((norm vec1 =? 0)%float = true \/ (norm vec2 =? 0)%float = true ->
   cosine_branch vec1 vec2 = ZeroVector /\
   compute_cosine_similarity vec1 vec2 = 0%float) /\
  (forall num den, cosine_branch vec1 vec2 = Division num den ->
   (norm vec1 =? 0)%float = false /\ (norm vec2 =? 0)%float = false /\
   num = dot vec1 vec2 /\ den = (norm vec1 * norm vec2)%float /\
   compute_cosine_similarity vec1 vec2 = (num / den)%float).
Proof.
  unfold compute_cosine_similarity, cosine_branch.
  destruct (norm vec1 =? 0)%float eqn:E1, (norm vec2 =? 0)%float eqn:E2;
    cbn [orb]; split;
    try (intros _; split; reflexivity);
    try (intros num den H; discriminate H).
  - intros [H|H]; discriminate H.
  - intros num den [= <- <-]. repeat split; reflexivity.
Qed.

Lemma cosine_zero_norm_witness :
  (cosine_branch [0; 0; 0]%float [0.6; 0.8; 0]%float = ZeroVector /\
   compute_cosine_similarity [0; 0; 0]%float [0.6; 0.8; 0]%float = 0%float) /\
  ((norm [1; 0]%float =? 0)%float = false /\ (norm [0.6; 0.8]%float =? 0)%float = false /\
   0.6%float = dot [1; 0]%float [0.6; 0.8]%float /\
   1%float = (norm [1; 0]%float * norm [0.6; 0.8]%float)%float /\
   compute_cosine_similarity [1; 0]%float [0.6; 0.8]%float = (0.6 / 1)%float).
Proof.
  split.
  - apply (proj1 (cosine_zero_norm_guard [0; 0; 0]%float [0.6; 0.8; 0]%float)).
    left. vm_compute. reflexivity.
  - apply (proj2 (cosine_zero_norm_guard [1; 0]%float [0.6; 0.8]%float)).
    vm_compute. reflexivity.
Defined.

(** * The batched form *)

Lemma float_mul_comm (x y : float) : (x * y = y * x)%float.
Proof.
  apply Prim2SF_inj. rewrite !mul_spec.
  destruct (Prim2SF x) as [s|s| |s m e], (Prim2SF y) as [s'|s'| |s' m' e'];
    unfold SF64mul, SFmul; try reflexivity;
    rewrite ?(xorb_comm s s'); try reflexivity.
  rewrite (Pos.mul_comm m m'), (Z.add_comm e e'). reflexivity.
Qed.

Lemma dot_comm (x y : vec) : dot x y = dot y x.
Proof.
  unfold dot. generalize 0%float as acc. revert y.
  induction x as [|a x IH]; intros [|b y] acc; cbn; try reflexivity.
  rewrite (float_mul_comm a b). apply IH.
Qed.

Lemma combine_map_self {A B} (f : A -> B) (l : list A) :
  combine l (map f l) = map (fun x => (x, f x)) l.
Proof. induction l as [|x l IH]; cbn; congruence. Qed.

Lemma get_embeddings_map isalnum embed texts :
  get_embeddings isalnum embed texts
  = map (fun t => embed (clean_for_embedding isalnum t)) texts.
Proof. destruct texts; cbn [get_embeddings]; [reflexivity|]. apply map_map. Qed.

Lemma find_similar_entries_blank isalnum embed query entries top_k threshold :
  negb (truthy query) || negb (truthy (strip query)) = true ->
  find_similar_entries isalnum embed query entries top_k threshold = [].
Proof.
  intros H. unfold find_similar_entries, ranked_entries.
  destruct (truthy query); cbn [negb orb] in *; [|reflexivity].
  rewrite H, orb_true_r.
  destruct (negb (truthy entries)); reflexivity.
Qed.

Lemma slice_to_nil {A} k : slice_to k (@nil A) = [].
Proof. unfold slice_to. destruct (0 <=? k)%Z; apply firstn_nil. Qed.

(** Each position of the batched result is computed from the query at that
    position alone: its row of scores is filtered, sorted and cut. *)
Lemma find_similar_entries_batch_rows isalnum embed queries entries top_k threshold :
  find_similar_entries_batch isalnum embed queries entries top_k threshold
  = map (fun q =>
           if negb (truthy q) || negb (truthy (strip q)) then []
           else
             lookup_entries entries
               (slice_to (or_int top_k TOP_K)
                  (sort_desc
                     (scored_entries_batch
                        (or_float threshold SIMILARITY_THRESHOLD)
                        (valid_data entries)
                        (map (fun e => dot (embed (clean_for_embedding isalnum q)) e)
                           (get_embeddings isalnum embed
                              (map snd (valid_data entries))))))))
        queries.
Proof.
  unfold find_similar_entries_batch.
  destruct queries as [|q0 qs]; [reflexivity|].
  set (queries := q0 :: qs).
  change (truthy queries) with true. cbn [negb orb].
  destruct entries as [|e0 es].
  { cbn [truthy negb]. apply map_ext. intros q.
    destruct (negb (truthy q) || negb (truthy (strip q))); [reflexivity|].
    cbn. rewrite slice_to_nil. reflexivity. }
  set (entries := e0 :: es).
  change (truthy entries) with true. cbn [negb].
  destruct (valid_data entries) as [|v vs] eqn:Hv; cbn [truthy negb].
  { apply map_ext. intros q.
    destruct (negb (truthy q) || negb (truthy (strip q))); [reflexivity|].
    cbn. rewrite slice_to_nil. reflexivity. }
  rewrite (get_embeddings_map isalnum embed queries). unfold dot_matrix_transposed.
  rewrite map_map, combine_map_self, map_map.
  apply map_ext. intros q. cbn [fst snd]. reflexivity.
Qed.

(** C4, where the code departs from it: the single-query form tests
    [float(similarities[i]) >= threshold] on Python floats, the batched form
    tests the float32 scalar [similarities[i] >= threshold], for which the
    threshold is rounded to float32.  With a score of [float32(0.96)], which
    is below 0.96, and [threshold = 0.96], the single-query form returns
    nothing and the batch of that one query returns the entry. *)
Theorem batch_of_one_disagrees_at_float32_threshold :
  similarities isalnum_ascii demo_embed32 (py "q") (valid_data [py "abcd"])
    = [to_float32 0.96] /\
  (0.96 <=? to_float32 0.96)%float = false /\
  float32_ge (to_float32 0.96) 0.96 = true /\
  find_similar_entries isalnum_ascii demo_embed32 (py "q") [py "abcd"]
    None (Some 0.96%float) = [] /\
  find_similar_entries_batch isalnum_ascii demo_embed32 [py "q"] [py "abcd"]
    None (Some 0.96%float) = [[py "abcd"]].
Proof. repeat split; vm_compute; reflexivity. Qed.

(** C8: in a batch, a blank or whitespace-only query gets the empty list at
    its own position; the batch has one result per query; and the result at
    the position of any other query is the ranking of that query's own row
    of scores: the entries scoring at or above the threshold, in descending
    order, cut to [top_k], as the caller's strings. *)
Theorem batch_blank_query_gives_empty_position
    isalnum embed queries entries top_k threshold i q :
  nth_error queries i = Some q ->
  length (find_similar_entries_batch isalnum embed queries entries top_k threshold)
    = length queries /\
  (strip q = [] ->
   nth_error (find_similar_entries_batch isalnum embed queries entries top_k threshold) i
     = Some []) /\
  (strip q <> [] ->
   nth_error (find_similar_entries_batch isalnum embed queries entries top_k threshold) i
     = Some (lookup_entries entries
               (slice_to (or_int top_k TOP_K)
                  (sort_desc
                     (scored_entries_batch
                        (or_float threshold SIMILARITY_THRESHOLD)
                        (valid_data entries)
                        (map (fun e => dot (embed (clean_for_embedding isalnum q)) e)
                           (get_embeddings isalnum embed
                              (map snd (valid_data entries))))))))).
Proof.
  intros Hq. rewrite find_similar_entries_batch_rows.
  rewrite length_map. erewrite map_nth_error by exact Hq.
  split; [reflexivity|]. split; intros Hs.
  - rewrite Hs. cbn [truthy negb]. rewrite orb_true_r. reflexivity.
  - destruct q as [|c r]; [cbn in Hs; congruence|].
    destruct (strip (c :: r)); [congruence|]. reflexivity.
Qed.

Lemma batch_blank_query_witness :
  length (find_similar_entries_batch isalnum_ascii demo_embed
            [py "q"; py "  "; py "abcdef"]
            [py "ab"; py "  "; py "abc"; py "abcde"; py "x"] None None) = 3 /\
  nth_error (find_similar_entries_batch isalnum_ascii demo_embed
               [py "q"; py "  "; py "abcdef"]
               [py "ab"; py "  "; py "abc"; py "abcde"; py "x"] None None) 1
    = Some [] /\
  nth_error (find_similar_entries_batch isalnum_ascii demo_embed
               [py "q"; py "  "; py "abcdef"]
               [py "ab"; py "  "; py "abc"; py "abcde"; py "x"] None None) 0
    = Some [py "x"; py "abc"; py "ab"] /\
  nth_error (find_similar_entries_batch isalnum_ascii demo_embed
               [py "q"; py "  "; py "abcdef"]
               [py "ab"; py "  "; py "abc"; py "abcde"; py "x"] None None) 2
    = Some [py "abcde"; py "ab"; py "abc"].
Proof.
  destruct (batch_blank_query_gives_empty_position isalnum_ascii demo_embed
              [py "q"; py "  "; py "abcdef"]
              [py "ab"; py "  "; py "abc"; py "abcde"; py "x"] None None
              1 (py "  ") eq_refl) as [L [B _]].
  destruct (batch_blank_query_gives_empty_position isalnum_ascii demo_embed
              [py "q"; py "  "; py "abcdef"]
              [py "ab"; py "  "; py "abc"; py "abcde"; py "x"] None None
              0 (py "q") eq_refl) as [_ [_ N0]].
  destruct (batch_blank_query_gives_empty_position isalnum_ascii demo_embed
              [py "q"; py "  "; py "abcdef"]
              [py "ab"; py "  "; py "abc"; py "abcde"; py "x"] None None
              2 (py "abcdef") eq_refl) as [_ [_ N2]].
  split; [exact L|]. split; [apply B; reflexivity|]. split.
  - rewrite N0 by (vm_compute; discriminate). vm_compute. reflexivity.
  - rewrite N2 by (vm_compute; discriminate). vm_compute. reflexivity.
Defined.

(** * Text cleaning *)

Section CleaningFacts.

Variable isalnum : char -> bool.

#[local] Abbreviation spec := (special isalnum).
#[local] Abbreviation sub3 := (re_sub_runs (special isalnum) 3).
#[local] Abbreviation squeeze := (re_sub_runs py_isspace 1).

Lemma space_isspace : py_isspace space = true.
Proof. reflexivity. Qed.

Lemma special_not_space c : py_isspace c = true -> spec c = false.
Proof. intros H. unfold special. rewrite H. apply andb_false_r. Qed.

Lemma special_space : spec space = false.
Proof. apply special_not_space, space_isspace. Qed.

Lemma isspace_eq_space c : (c =? space)%N = true -> c = space.
Proof. apply N.eqb_eq. Qed.

(** ** The substitution leaves no long run of special characters *)

Lemma sub3_no_long_run x :
  (forall n, n + run_length spec x < 3 -> no_long_run spec n (sub3 0 x) = true) /\
  no_long_run spec 0 (sub3 0 x) = true /\
  no_long_run spec 0 (sub3 (run_length spec x) x) = true.
Proof.
  induction x as [|c r [IH1 [IH2 IH3]]]; [repeat split|].
  assert (H1 : forall n, n + run_length spec (c :: r) < 3 ->
                         no_long_run spec n (sub3 0 (c :: r)) = true).
  { intros n Hn. cbn [re_sub_runs].
    destruct (3 <=? run_length spec (c :: r)) eqn:E;
      [apply Nat.leb_le in E; lia|].
    cbn [run_length] in Hn. cbn [no_long_run].
    destruct (spec c).
    - rewrite IH1 by lia. rewrite andb_true_r. apply Nat.ltb_lt. lia.
    - apply IH2. }
  assert (H2 : no_long_run spec 0 (sub3 0 (c :: r)) = true).
  { cbn [re_sub_runs].
    destruct (3 <=? run_length spec (c :: r)) eqn:E.
    - cbn [no_long_run]. rewrite special_space.
      cbn [run_length] in *. destruct (spec c); [exact IH3|discriminate].
    - apply Nat.leb_gt in E. specialize (H1 0 E).
      cbn [re_sub_runs] in H1. apply Nat.leb_gt in E. rewrite E in H1. exact H1. }
  repeat split; try assumption.
  cbn [run_length]. destruct (spec c) eqn:Ec.
  - exact IH3.
  - exact H2.
Qed.

Lemma no_long_run_mono p m n x :
  m <= n -> no_long_run p n x = true -> no_long_run p m x = true.
Proof.
  revert m n. induction x as [|c r IH]; intros m n Hmn; cbn [no_long_run];
    [reflexivity|].
  destruct (p c); [|tauto].
  rewrite !andb_true_iff, !Nat.ltb_lt. intros [H1 H2]. split; [lia|].
  apply (IH (S m) (S n)); [lia|exact H2].
Qed.

(** ** Collapsing whitespace *)

Lemma squeeze_collapsed x :
  collapsed false (squeeze 0 x) = true /\
  (run_length py_isspace x = 0 -> collapsed true (squeeze 0 x) = true) /\
  collapsed true (squeeze (run_length py_isspace x) x) = true.
Proof.
  induction x as [|c r [IH1 [IH2 IH3]]]; [repeat split|].
  cbn [re_sub_runs run_length].
  destruct (py_isspace c) eqn:Ec.
  - cbn [Nat.leb Nat.pred collapsed]. rewrite space_isspace, N.eqb_refl.
    cbn [negb andb]. repeat split; try assumption. discriminate.
  - change (1 <=? 0) with false. cbn [collapsed]. rewrite Ec. auto.
Qed.

Lemma squeeze_no_long_run x :
  (forall n, no_long_run spec n x = true -> no_long_run spec n (squeeze 0 x) = true) /\
  (forall n, no_long_run spec n x = true ->
             no_long_run spec 0 (squeeze (run_length py_isspace x) x) = true).
Proof.
  induction x as [|c r [IH1 IH2]]; [split; reflexivity|].
  assert (H1 : forall n, no_long_run spec n (c :: r) = true ->
                         no_long_run spec n (squeeze 0 (c :: r)) = true).
  { intros n. cbn [re_sub_runs run_length no_long_run].
    destruct (py_isspace c) eqn:Ec.
    - cbn [Nat.leb Nat.pred no_long_run].
      rewrite special_space, (special_not_space c Ec). apply (IH2 0).
    - cbn [Nat.leb no_long_run]. destruct (spec c).
      + rewrite !andb_true_iff. intros [H H']. split; [exact H|apply IH1, H'].
      + apply IH1. }
  split; [exact H1|].
  intros n Hn. cbn [run_length]. destruct (py_isspace c) eqn:Ec.
  - cbn [re_sub_runs]. cbn [no_long_run] in Hn.
    rewrite (special_not_space c Ec) in Hn. apply (IH2 0), Hn.
  - apply H1. eapply no_long_run_mono; [|exact Hn]. lia.
Qed.

(** ** Stripping *)

Lemma lstrip_collapsed b x : collapsed b x = true -> collapsed true (lstrip x) = true.
Proof.
  revert b. induction x as [|c r IH]; intros b; cbn; [reflexivity|].
  destruct (py_isspace c) eqn:Ec.
  - rewrite !andb_true_iff. intros [_ H]. apply (IH true), H.
  - cbn. rewrite Ec. tauto.
Qed.

Lemma rstrip_single_spaced b x :
  collapsed b x = true -> rstrip x = [] \/ single_spaced b (rstrip x) = true.
Proof.
  revert b. induction x as [|c r IH]; intros b; [left; reflexivity|].
  cbn [collapsed rstrip]. destruct (py_isspace c) eqn:Ec.
  - rewrite !andb_true_iff. intros [[H1 H2] H3].
    destruct (IH true H3) as [-> | H]; [left; reflexivity|].
    destruct (rstrip r) as [|d r'] eqn:Er; [left; reflexivity|].
    right. cbn [single_spaced]. rewrite Ec, H1, H2. exact H.
  - intros H3. right.
    destruct (IH false H3) as [-> | H].
    + cbn. rewrite Ec. reflexivity.
    + destruct (rstrip r) as [|d r'] eqn:Er.
      * cbn. rewrite Ec. reflexivity.
      * cbn [single_spaced]. rewrite Ec. exact H.
Qed.

Lemma strip_single_spaced x :
  collapsed false x = true -> strip x = [] \/ single_spaced true (strip x) = true.
Proof.
  intros H. apply rstrip_single_spaced, (lstrip_collapsed false), H.
Qed.

Lemma lstrip_no_long_run n x :
  no_long_run spec n x = true -> no_long_run spec 0 (lstrip x) = true.
Proof.
  revert n. induction x as [|c r IH]; intros n; [reflexivity|].
  cbn [lstrip drop_while]. destruct (py_isspace c) eqn:Ec.
  - cbn [no_long_run]. rewrite (special_not_space c Ec). apply IH.
  - apply no_long_run_mono. lia.
Qed.

Lemma rstrip_no_long_run n x :
  no_long_run spec n x = true -> no_long_run spec n (rstrip x) = true.
Proof.
  revert n. induction x as [|c r IH]; intros n; [reflexivity|].
  cbn [rstrip no_long_run].
  destruct (rstrip r) as [|d r'] eqn:Er.
  - destruct (py_isspace c) eqn:Ec; [reflexivity|].
    cbn [no_long_run]. destruct (spec c); [|reflexivity].
    rewrite !andb_true_iff. tauto.
  - cbn [no_long_run]. destruct (spec c).
    + rewrite !andb_true_iff. intros [H H']. split; [exact H|apply IH, H'].
    + apply IH.
Qed.

Lemma strip_no_long_run x :
  no_long_run spec 0 x = true -> no_long_run spec 0 (strip x) = true.
Proof. intros H. apply rstrip_no_long_run, (lstrip_no_long_run 0), H. Qed.

(** ** Each step is the identity on cleaned text *)

Lemma join_cons t rest : join [space] (t :: rest) = t ++ join_after rest.
Proof. destruct rest; cbn; [rewrite app_nil_r|]; reflexivity. Qed.

Lemma split_join_single_spaced x :
  (single_spaced true x = true ->
   join [space] (split_aux false x) = x /\ split_aux false x <> []) /\
  (single_spaced false x = true ->
   take_while nonspace x ++ join_after (split_aux true x) = x).
Proof.
  induction x as [|c r [IH1 IH2]]; [split; [discriminate|reflexivity]|].
  cbn [single_spaced split_aux take_while].
  assert (En : nonspace c = negb (py_isspace c)) by reflexivity.
  rewrite En. clear En.
  destruct (py_isspace c) eqn:Ec; cbn [negb andb].
  - rewrite andb_false_r. split; [discriminate|].
    rewrite andb_true_r, andb_true_iff. intros [Hc Hr].
    destruct (IH1 Hr) as [Hj Hn]. apply isspace_eq_space in Hc. subst c.
    cbn [app]. unfold join_after.
    destruct (split_aux false r) as [|t ts]; [congruence|].
    rewrite Hj. reflexivity.
  - split; intros Hr.
    + split; [|discriminate]. rewrite join_cons. cbn [app].
      f_equal. apply IH2, Hr.
    + cbn [app]. f_equal. apply IH2, Hr.
Qed.

Lemma no_long_run_bound n x :
  no_long_run spec n x = true -> run_length spec x = 0 \/ n + run_length spec x <= 2.
Proof.
  revert n. induction x as [|c r IH]; intros n; [left; reflexivity|].
  cbn [no_long_run run_length]. destruct (spec c); [|left; reflexivity].
  rewrite andb_true_iff, Nat.ltb_lt. intros [Hn H]. right.
  destruct (IH (S n) H) as [-> | H']; lia.
Qed.

Lemma sub3_fixed n x : no_long_run spec n x = true -> sub3 0 x = x.
Proof.
  revert n. induction x as [|c r IH]; intros n H; [reflexivity|].
  cbn [re_sub_runs].
  assert (E : (3 <=? run_length spec (c :: r)) = false).
  { apply Nat.leb_gt. destruct (no_long_run_bound n _ H) as [-> | H']; lia. }
  rewrite E. f_equal. cbn [no_long_run] in H.
  destruct (spec c).
  - apply andb_true_iff in H. apply (IH (S n)), H.
  - apply (IH 0), H.
Qed.

Lemma single_spaced_head x :
  single_spaced true x = true -> run_length py_isspace x = 0.
Proof.
  destruct x as [|c r]; cbn; [discriminate|].
  destruct (py_isspace c); [rewrite andb_false_r; discriminate|reflexivity].
Qed.

Lemma squeeze_fixed b x : single_spaced b x = true -> squeeze 0 x = x.
Proof.
  revert b. induction x as [|c r IH]; intros b H; [reflexivity|].
  cbn [re_sub_runs run_length]. cbn [single_spaced] in H.
  destruct (py_isspace c) eqn:Ec.
  - apply andb_true_iff in H. destruct H as [H Hr].
    apply andb_true_iff in H. destruct H as [Hc _].
    apply isspace_eq_space in Hc. subst c.
    rewrite (single_spaced_head r Hr). cbn [Nat.leb Nat.pred].
    f_equal. apply (IH true), Hr.
  - cbn [Nat.leb]. f_equal. apply (IH false), H.
Qed.

Lemma rstrip_fixed b x : single_spaced b x = true -> rstrip x = x.
Proof.
  revert b. induction x as [|c r IH]; intros b H; [reflexivity|].
  cbn [rstrip]. cbn [single_spaced] in H.
  destruct (py_isspace c) eqn:Ec.
  - apply andb_true_iff in H. destruct H as [_ Hr].
    rewrite (IH true Hr). destruct r; [discriminate Hr|reflexivity].
  - rewrite (IH false H). destruct r; reflexivity.
Qed.

Lemma strip_fixed x : single_spaced true x = true -> strip x = x.
Proof.
  intros H. unfold strip, lstrip.
  assert (E : drop_while py_isspace x = x).
  { destruct x as [|c r]; [reflexivity|]. cbn in *.
    destruct (py_isspace c); [rewrite andb_false_r in H; discriminate|reflexivity]. }
  rewrite E. apply (rstrip_fixed true), H.
Qed.

Lemma clean_fixed x :
  x = [] \/ single_spaced true x = true ->
  no_long_run spec 0 x = true ->
  clean_for_embedding isalnum x = x.
Proof.
  intros [-> | Hs] Hn; [reflexivity|].
  unfold clean_for_embedding.
  destruct x as [|c r]; [reflexivity|]. cbn [truthy negb].
  unfold split.
  rewrite (proj1 (proj1 (split_join_single_spaced (c :: r)) Hs)).
  rewrite (sub3_fixed 0 _ Hn), (squeeze_fixed true _ Hs).
  apply strip_fixed, Hs.
Qed.

Lemma clean_shape t :
  (clean_for_embedding isalnum t = [] \/
   single_spaced true (clean_for_embedding isalnum t) = true) /\
  no_long_run spec 0 (clean_for_embedding isalnum t) = true.
Proof.
  unfold clean_for_embedding. destruct (negb (truthy t)).
  - split; [left|]; reflexivity.
  - split.
    + apply strip_single_spaced, squeeze_collapsed.
    + apply strip_no_long_run, (proj1 (squeeze_no_long_run _)), sub3_no_long_run.
Qed.

End CleaningFacts.

(** C10: [clean_for_embedding] is idempotent.  Its output is empty or
    single-spaced (each whitespace is one [' '] between two other characters,
    none at either end) and holds no run of three or more characters that are
    neither word characters nor whitespace, so cleaning it again changes
    nothing. *)
Theorem clean_for_embedding_idempotent isalnum t :
  clean_for_embedding isalnum (clean_for_embedding isalnum t)
    = clean_for_embedding isalnum t /\
  (clean_for_embedding isalnum t = [] \/
   single_spaced true (clean_for_embedding isalnum t) = true) /\
  no_long_run (special isalnum) 0 (clean_for_embedding isalnum t) = true.
Proof.
  destruct (clean_shape isalnum t) as [Hs Hn].
  split; [|split; assumption].
  apply clean_fixed; assumption.
Qed.

(** * Further properties of the ranking *)

Section RankingExtras.

Variable isalnum : char -> bool.
Variable embed : str -> vec.

Lemma insert_perm x l : Permutation (ListSort.insert x l) (x :: l).
Proof.
  induction l as [|y r IH]; cbn [ListSort.insert]; [reflexivity|].
  destruct (key_lt x y); [reflexivity|].
  rewrite IH. apply perm_swap.
Qed.

Lemma sort_desc_perm l : Permutation (ListSort.sort_desc l) l.
Proof.
  unfold ListSort.sort_desc. rewrite <- Permutation_rev.
  induction l as [|x l IH]; cbn [rev]; [reflexivity|].
  rewrite sort_asc_snoc, insert_perm. rewrite IH. reflexivity.
Qed.

Lemma index_sorted_NoDup (l : list scored) :
  StronglySorted index_lt l -> NoDup (map fst l).
Proof.
  induction 1 as [|x l Hs IH Hx]; cbn; constructor; [|exact IH].
  intros Hin. apply in_map_iff in Hin. destruct Hin as [y [Hy Hin]].
  rewrite Forall_forall in Hx. specialize (Hx y Hin).
  unfold index_lt in Hx. lia.
Qed.

Lemma NoDup_firstn_own {A} n (l : list A) : NoDup l -> NoDup (firstn n l).
Proof.
  intros H. revert n. induction H as [|x l Hx Hl IH]; intros [|n]; cbn;
    try constructor.
  - intros Hin. apply Hx. eapply firstn_incl. exact Hin.
  - apply IH.
Qed.

Lemma slice_to_NoDup {A} k (l : list A) : NoDup l -> NoDup (slice_to k l).
Proof. unfold slice_to. destruct (0 <=? k)%Z; apply NoDup_firstn_own. Qed.

Lemma slice_to_length_le {A} k (l : list A) : length (slice_to k l) <= length l.
Proof.
  unfold slice_to. destruct (0 <=? k)%Z; rewrite length_firstn; lia.
Qed.

Lemma scored_entries_length threshold valid sims :
  length (scored_entries threshold valid sims) <= length valid.
Proof.
  revert sims. induction valid as [|[i e] valid IH]; intros [|s sims]; cbn;
    try lia.
  specialize (IH sims). destruct (threshold <=? s)%float; cbn; lia.
Qed.

Lemma enumerate_from_map_snd {A} i (l : list A) : map snd (enumerate_from i l) = l.
Proof. revert i. induction l as [|x l IH]; intros i; cbn; [|rewrite IH]; reflexivity. Qed.

Lemma valid_data_entries entries :
  map snd (valid_data entries) = filter nonblank entries.
Proof.
  unfold valid_data, enumerate. generalize 0.
  induction entries as [|e r IH]; intros i; cbn; [reflexivity|].
  destruct (nonblank e); cbn; rewrite IH; reflexivity.
Qed.

Lemma strip_nil : strip [] = [].
Proof. reflexivity. Qed.

Lemma truthy_strip query : truthy (strip query) = true -> truthy query = true.
Proof. destruct query; [discriminate|reflexivity]. Qed.

(** X1: an entry that is empty or only whitespace is never returned. *)
Theorem find_similar_entries_nonblank query entries top_k threshold s :
  In s (find_similar_entries isalnum embed query entries top_k threshold) ->
  nonblank s = true /\ strip s <> [].
Proof.
  unfold find_similar_entries, lookup_entries. rewrite in_map_iff.
  intros [c [<- Hc]]. apply ranked_entries_lookup in Hc.
  destruct Hc as [e [_ [Hb ->]]]. split; [exact Hb|].
  unfold nonblank in Hb. apply andb_true_iff in Hb. destruct Hb as [_ Hb].
  destruct (strip e); [discriminate|discriminate].
Qed.

(** X2: every position of the caller's list is returned at most once, so
    the result is never longer than the number of non-blank entries. *)
Theorem find_similar_entries_no_repeats query entries top_k threshold :
  NoDup (map fst (ranked_entries isalnum embed query entries top_k threshold)) /\
  length (find_similar_entries isalnum embed query entries top_k threshold)
    <= length (filter nonblank entries).
Proof.
  unfold find_similar_entries. rewrite lookup_entries_length.
  destruct (ranked_entries_cases isalnum embed query entries top_k threshold)
    as [-> | ->].
  - split; [constructor|cbn; lia].
  - split.
    + unfold slice_to. destruct (0 <=? or_int top_k TOP_K)%Z;
        rewrite <- firstn_map; apply NoDup_firstn_own;
        (eapply Permutation_NoDup;
         [apply Permutation_map; symmetry; apply sort_desc_perm|]);
        apply index_sorted_NoDup, scored_entries_sorted, valid_data_sorted.
    + etransitivity; [apply slice_to_length_le|].
      rewrite sort_desc_length.
      etransitivity; [apply scored_entries_length|].
      rewrite <- valid_data_entries, length_map. reflexivity.
Qed.

(** X3: with the same query, entries and threshold, the result for a smaller
    [top_k] is the start of the result for a larger one. *)
Theorem find_similar_entries_top_k_prefix query entries k1 k2 threshold :
  (1 <= k1 <= k2)%Z ->
  find_similar_entries isalnum embed query entries (Some k1) threshold
  = firstn (Z.to_nat k1)
      (find_similar_entries isalnum embed query entries (Some k2) threshold).
Proof.
  intros Hk. unfold find_similar_entries, lookup_entries, ranked_entries.
  destruct (negb (truthy query) || negb (truthy entries));
    [rewrite firstn_nil; reflexivity|].
  destruct (negb (truthy (valid_data entries)) || negb (truthy (strip query)));
    [rewrite firstn_nil; reflexivity|].
  cbn [or_int]. destruct (Z.eqb_spec k1 0); [lia|]. destruct (Z.eqb_spec k2 0); [lia|].
  unfold slice_to.
  destruct (Z.leb_spec 0 k1); [|lia]. destruct (Z.leb_spec 0 k2); [|lia].
  rewrite <- firstn_map, <- firstn_map, firstn_firstn.
  replace (Nat.min (Z.to_nat k1) (Z.to_nat k2)) with (Z.to_nat k1) by lia.
  reflexivity.
Qed.

End RankingExtras.

Lemma nonblank_result_witness :
  nonblank (py "x") = true /\ strip (py "x") <> [].
Proof.
  apply (find_similar_entries_nonblank isalnum_ascii demo_embed (py "q")
           [py "  "; py "x"] None None (py "x")).
  vm_compute. left. reflexivity.
Defined.

Lemma top_k_prefix_witness :
  find_similar_entries isalnum_ascii demo_embed (py "q")
    [py "ab"; py "x"; py "abc"] (Some 1%Z) None
  = firstn (Z.to_nat 1)
      (find_similar_entries isalnum_ascii demo_embed (py "q")
         [py "ab"; py "x"; py "abc"] (Some 3%Z) None).
Proof.
  apply (find_similar_entries_top_k_prefix isalnum_ascii demo_embed (py "q")
           [py "ab"; py "x"; py "abc"] 1%Z 3%Z None).
  lia.
Defined.

Section ThresholdFacts.

Variable isalnum : char -> bool.
Variable embed : str -> vec.

Lemma ranked_before_irrefl a : not_nan a -> ~ ranked_before a a.
Proof.
  intros Ha H. apply (ranked_before_key a a Ha Ha) in H.
  destruct H as [H|[_ H]]; [destruct (klt_irrefl _ H)|lia].
Qed.

(** Two lists ordered by the ranking order with the same members are equal. *)
Lemma ranked_sorted_unique (l1 l2 : list scored) :
  Forall not_nan l1 ->
  StronglySorted ranked_before l1 -> StronglySorted ranked_before l2 ->
  (forall c, In c l1 <-> In c l2) -> l1 = l2.
Proof.
  intros Hn H1. revert l2. induction H1 as [|x1 r1 Hs1 IH Hx1]; intros l2 H2 Hm.
  - destruct l2 as [|x2 r2]; [reflexivity|].
    destruct (proj2 (Hm x2)); left; reflexivity.
  - destruct H2 as [|x2 r2 Hs2 Hx2].
    + destruct (proj1 (Hm x1)); left; reflexivity.
    + inversion Hn as [|? ? Hnx Hnr]; subst.
      rewrite Forall_forall in Hx1, Hx2, Hnr.
      assert (Hn2 : not_nan x2).
      { destruct (proj2 (Hm x2) (or_introl eq_refl)) as [<-|Hin]; auto. }
      assert (E : x1 = x2).
      { destruct (proj1 (Hm x1) (or_introl eq_refl)) as [E|Hin1]; [auto|].
        destruct (proj2 (Hm x2) (or_introl eq_refl)) as [E|Hin2]; [auto|].
        exfalso. apply (ranked_before_irrefl x1 Hnx).
        apply (ranked_before_trans x1 x2 x1); auto. }
      subst x2. f_equal. apply IH; [rewrite Forall_forall; exact Hnr|exact Hs2|].
      intros c. split; intros Hc.
      * destruct (proj1 (Hm c) (or_intror Hc)) as [<-|Hin]; [|exact Hin].
        exfalso. apply (ranked_before_irrefl x1 Hnx), Hx1, Hc.
      * destruct (proj2 (Hm c) (or_intror Hc)) as [<-|Hin]; [|exact Hin].
        exfalso. apply (ranked_before_irrefl x1 Hnx), Hx2, Hc.
Qed.

Lemma filter_none {A} (p : A -> bool) l :
  (forall y, In y l -> p y = false) -> filter p l = [].
Proof.
  induction l as [|x l IH]; intros H; [reflexivity|]. cbn.
  rewrite (H x (or_introl eq_refl)). apply IH. intros y Hy. apply H. right. exact Hy.
Qed.

(** On an ordered list, a test that holds for everything ranked before an
    element passing it keeps a prefix. *)
Lemma filter_sorted_prefix {A} (R : A -> A -> Prop) (p : A -> bool) l :
  StronglySorted R l ->
  (forall a b, In a l -> In b l -> R a b -> p b = true -> p a = true) ->
  filter p l = firstn (length (filter p l)) l.
Proof.
  intros Hs. induction Hs as [|x r Hs IH Hx]; intros Hp; [reflexivity|].
  cbn [filter]. destruct (p x) eqn:Ex.
  - cbn [length firstn]. f_equal. apply IH.
    intros a b Ha Hb. apply Hp; right; assumption.
  - assert (E : filter p r = []).
    { apply filter_none. intros y Hy. destruct (p y) eqn:Ey; [|reflexivity].
      rewrite Forall_forall in Hx.
      rewrite (Hp x y (or_introl eq_refl) (or_intror Hy) (Hx y Hy) Ey) in Ex.
      discriminate. }
    rewrite E. reflexivity.
Qed.

End ThresholdFacts.

Lemma leb_trans_float x y z :
  (x <=? y)%float = true -> (y <=? z)%float = true -> (x <=? z)%float = true.
Proof.
  intros Hxy Hyz.
  destruct (leb_not_nan _ _ Hxy) as [Nx Ny].
  destruct (leb_not_nan _ _ Hyz) as [_ Nz].
  apply (leb_key _ _ Nx Ny) in Hxy. apply (leb_key _ _ Ny Nz) in Hyz.
  apply (leb_key _ _ Nx Nz).
  destruct Hxy as [H1|H1], Hyz as [H2|H2].
  - left. eapply klt_trans; eassumption.
  - left. rewrite <- H2. exact H1.
  - left. rewrite H1. exact H2.
  - right. congruence.
Qed.

Lemma ranked_before_above t a b :
  not_nan a -> not_nan b -> ranked_before a b ->
  (t <=? snd b)%float = true -> (t <=? snd a)%float = true.
Proof.
  intros Na Nb R Hb. apply (leb_trans_float t (snd b) (snd a) Hb).
  apply (leb_key _ _ Nb Na). apply (ranked_before_key a b Na Nb) in R.
  destruct R as [R|[R _]]; [left; exact R|right; congruence].
Qed.

Lemma slice_to_firstn {A} k m (l : list A) :
  exists n, slice_to k (firstn m l) = firstn n (slice_to k l).
Proof.
  unfold slice_to. destruct (Z.leb_spec 0 k).
  - exists m. rewrite !firstn_firstn. f_equal. lia.
  - exists (Z.to_nat (Z.of_nat (length (firstn m l)) + k)).
    rewrite !firstn_firstn, length_firstn. f_equal. lia.
Qed.

Section ThresholdMonotone.

Variable isalnum : char -> bool.
Variable embed : str -> vec.

Lemma sort_desc_threshold t1 t2 valid sims :
  (t1 <=? t2)%float = true ->
  StronglySorted (fun a b => fst a < fst b) valid ->
  exists m,
    ListSort.sort_desc (scored_entries t2 valid sims)
    = firstn m (ListSort.sort_desc (scored_entries t1 valid sims)).
Proof.
  intros Ht Hv.
  set (p := fun c : scored => (t2 <=? snd c)%float).
  set (L1 := ListSort.sort_desc (scored_entries t1 valid sims)).
  assert (N1 : Forall not_nan L1).
  { rewrite Forall_forall. intros c Hc. apply (proj1 (sort_desc_In _ _)) in Hc.
    pose proof (scored_entries_not_nan t1 valid sims) as F.
    rewrite Forall_forall in F. apply F, Hc. }
  assert (S1 : StronglySorted ranked_before L1).
  { apply sort_desc_sorted;
      [apply scored_entries_not_nan|apply scored_entries_sorted, Hv]. }
  exists (length (filter p L1)).
  rewrite <- (filter_sorted_prefix ranked_before p L1 S1).
  - apply ranked_sorted_unique.
    + rewrite Forall_forall. intros c Hc. apply (proj1 (sort_desc_In _ _)) in Hc.
      pose proof (scored_entries_not_nan t2 valid sims) as F.
      rewrite Forall_forall in F. apply F, Hc.
    + apply sort_desc_sorted;
        [apply scored_entries_not_nan|apply scored_entries_sorted, Hv].
    + apply StronglySorted_filter, S1.
    + intros c. rewrite sort_desc_In, filter_In. unfold L1.
      rewrite sort_desc_In, !scored_entries_In. unfold p. split.
      * intros [Hc Hs]. repeat split; try assumption.
        apply (leb_trans_float _ _ _ Ht Hs).
      * intros [[Hc _] Hs]. split; assumption.
  - intros a b Ha Hb R Hpb. rewrite Forall_forall in N1.
    apply (ranked_before_above t2 a b); auto.
Qed.

(** X4: raising the threshold only cuts entries off the end of the result:
    with the same query, entries and [top_k], the result under the higher
    effective threshold is a prefix of the result under the lower one. *)
Theorem find_similar_entries_threshold_prefix query entries top_k th1 th2 :
  (or_float th1 SIMILARITY_THRESHOLD <=? or_float th2 SIMILARITY_THRESHOLD)%float = true ->
  exists n,
    find_similar_entries isalnum embed query entries top_k th2
    = firstn n (find_similar_entries isalnum embed query entries top_k th1).
Proof.
  intros Ht. unfold find_similar_entries, lookup_entries, ranked_entries.
  destruct (negb (truthy query) || negb (truthy entries)); [exists 0; reflexivity|].
  destruct (negb (truthy (valid_data entries)) || negb (truthy (strip query)));
    [exists 0; reflexivity|].
  destruct (sort_desc_threshold _ _ (valid_data entries)
              (similarities isalnum embed query (valid_data entries)) Ht
              (valid_data_sorted entries)) as [m ->].
  destruct (slice_to_firstn (or_int top_k TOP_K) m
              (ListSort.sort_desc
                 (scored_entries (or_float th1 SIMILARITY_THRESHOLD)
                    (valid_data entries)
                    (similarities isalnum embed query (valid_data entries)))))
    as [n ->].
  exists n. symmetry. apply firstn_map.
Qed.

(** X5: when [top_k] is at least the number of entries, nothing is cut: an
    entry whose score is at or above the effective threshold is returned,
    for a query that is not blank. *)
Theorem find_similar_entries_complete query entries top_k threshold i s :
  top_k_positive top_k = true ->
  (Z.of_nat (length entries)
   <= match top_k with Some k => k | None => TOP_K end)%Z ->
  truthy (strip query) = true ->
  In (i, s) (combine (map fst (valid_data entries))
               (similarities isalnum embed query (valid_data entries))) ->
  (or_float threshold SIMILARITY_THRESHOLD <=? s)%float = true ->
  In (nth i entries []) (find_similar_entries isalnum embed query entries top_k threshold).
Proof.
  intros Hk Hlen Hq Hin Hs.
  assert (E : or_int top_k TOP_K = match top_k with Some k => k | None => TOP_K end).
  { destruct top_k as [k|]; cbn in *; [|reflexivity].
    apply Z.leb_le in Hk. destruct (Z.eqb_spec k 0); [lia|reflexivity]. }
  assert (Te : truthy entries = true).
  { destruct entries; [destruct Hin|reflexivity]. }
  assert (Tv : truthy (valid_data entries) = true).
  { destruct (valid_data entries); [destruct Hin|reflexivity]. }
  unfold find_similar_entries, lookup_entries, ranked_entries.
  rewrite (truthy_strip _ Hq), Hq, Te, Tv. cbn [negb orb].
  set (S := scored_entries _ _ _).
  assert (HS : In (i, s) S).
  { apply scored_entries_In. split; assumption. }
  assert (Hl : length (ListSort.sort_desc S) <= length entries).
  { rewrite sort_desc_length. unfold S.
    etransitivity; [apply scored_entries_length|].
    rewrite <- (length_map snd), valid_data_entries. apply filter_length_le. }
  apply in_map_iff. exists (i, s). split; [reflexivity|].
  unfold slice_to. rewrite E.
  destruct (Z.leb_spec 0 (match top_k with Some k => k | None => TOP_K end)); [|lia].
  rewrite (firstn_all2 (n := Z.to_nat _) (ListSort.sort_desc S)) by lia.
  apply (proj2 (sort_desc_In _ _)), HS.
Qed.

(** X6: a query that is empty or only whitespace gives the empty result,
    whatever the entries. *)
Theorem find_similar_entries_whitespace_query query entries top_k threshold :
  strip query = [] ->
  find_similar_entries isalnum embed query entries top_k threshold = [].
Proof.
  intros H. apply find_similar_entries_blank. rewrite H. apply orb_true_r.
Qed.

(** X7: the batched form treats the queries independently: a batch that is
    the concatenation of two batches gives the concatenation of their
    results. *)
Theorem find_similar_entries_batch_app queries1 queries2 entries top_k threshold :
  find_similar_entries_batch isalnum embed (queries1 ++ queries2) entries top_k threshold
  = find_similar_entries_batch isalnum embed queries1 entries top_k threshold
    ++ find_similar_entries_batch isalnum embed queries2 entries top_k threshold.
Proof. rewrite !find_similar_entries_batch_rows. apply map_app. Qed.

(** X9: the embeddings depend on the cleaned text only: embedding texts that
    are already cleaned gives the same vectors, one per text. *)
Theorem get_embeddings_of_cleaned texts :
  get_embeddings isalnum embed (map (clean_for_embedding isalnum) texts)
  = get_embeddings isalnum embed texts /\
  length (get_embeddings isalnum embed texts) = length texts.
Proof.
  rewrite !get_embeddings_map. split.
  - rewrite map_map. apply map_ext. intros t. f_equal.
    destruct (clean_shape isalnum t) as [Hs Hn].
    apply clean_fixed; assumption.
  - apply length_map.
Qed.

End ThresholdMonotone.

(** X8: cosine similarity is symmetric in its two vectors. *)
Theorem compute_cosine_similarity_sym vec1 vec2 :
  compute_cosine_similarity vec1 vec2 = compute_cosine_similarity vec2 vec1.
Proof.
  unfold compute_cosine_similarity, cosine_branch.
  rewrite (orb_comm (norm vec1 =? 0)%float).
  destruct ((norm vec2 =? 0)%float || (norm vec1 =? 0)%float); [reflexivity|].
  rewrite (dot_comm vec1 vec2), (float_mul_comm (norm vec1)). reflexivity.
Qed.

Lemma threshold_prefix_witness :
  exists n,
    find_similar_entries isalnum_ascii demo_embed (py "q")
      [py "ab"; py "x"; py "abc"] None (Some 0.7%float)
    = firstn n (find_similar_entries isalnum_ascii demo_embed (py "q")
                  [py "ab"; py "x"; py "abc"] None None).
Proof.
  apply (find_similar_entries_threshold_prefix isalnum_ascii demo_embed (py "q")
           [py "ab"; py "x"; py "abc"] None None (Some 0.7%float)).
  vm_compute. reflexivity.
Defined.

Lemma complete_witness :
  In (nth 0 [py "ab"; py "x"] [])
     (find_similar_entries isalnum_ascii demo_embed (py "q") [py "ab"; py "x"] None None).
Proof.
  apply (find_similar_entries_complete isalnum_ascii demo_embed (py "q")
           [py "ab"; py "x"] None None 0 0.6%float).
  - reflexivity.
  - vm_compute. discriminate.
  - reflexivity.
  - vm_compute. left. reflexivity.
  - vm_compute. reflexivity.
Defined.

Lemma whitespace_query_witness :
  find_similar_entries isalnum_ascii demo_embed (py "   ") [py "ab"; py "x"] None None = [].
Proof.
  apply (find_similar_entries_whitespace_query isalnum_ascii demo_embed (py "   ")
           [py "ab"; py "x"] None None).
  reflexivity.
Defined.

(** * The handler and the service *)

Section HandlerFacts.

Variable isalnum : char -> bool.
Variable embed : str -> vec.

Lemma Forall2_rev_own {A B} (R : A -> B -> Prop) l1 l2 :
  Forall2 R l1 l2 -> Forall2 R (rev l1) (rev l2).
Proof.
  induction 1 as [|x y l1 l2 Hxy H IH]; cbn; [constructor|].
  apply Forall2_app; [exact IH|]. constructor; [exact Hxy|constructor].
Qed.

Lemma Forall2_firstn_own {A B} (R : A -> B -> Prop) n l1 l2 :
  Forall2 R l1 l2 -> Forall2 R (firstn n l1) (firstn n l2).
Proof.
  intros H. revert n. induction H as [|x y l1 l2 Hxy H IH]; intros [|n]; cbn;
    constructor; auto.
Qed.

Lemma insert_same_entry E1 E2 x1 x2 l1 l2 :
  same_entry E1 E2 x1 x2 -> Forall2 (same_entry E1 E2) l1 l2 ->
  Forall2 (same_entry E1 E2) (ListSort.insert x1 l1) (ListSort.insert x2 l2).
Proof.
  intros Hx H. induction H as [|y1 y2 l1 l2 Hy H IH]; cbn [ListSort.insert].
  - constructor; [exact Hx|constructor].
  - unfold key_lt. rewrite (proj1 Hx), (proj1 Hy).
    destruct (snd x2 <? snd y2)%float.
    + constructor; [exact Hx|]. constructor; assumption.
    + constructor; [exact Hy|exact IH].
Qed.

Lemma sort_desc_same_entry E1 E2 l1 l2 :
  Forall2 (same_entry E1 E2) l1 l2 ->
  Forall2 (same_entry E1 E2) (ListSort.sort_desc l1) (ListSort.sort_desc l2).
Proof.
  intros H. unfold ListSort.sort_desc, sort_asc. apply Forall2_rev_own.
  apply Forall2_rev_own in H. revert H.
  generalize (rev l1) (rev l2). intros r1 r2 H.
  assert (G : forall a1 a2, Forall2 (same_entry E1 E2) a1 a2 ->
    Forall2 (same_entry E1 E2)
      (fold_left (fun acc x => ListSort.insert x acc) r1 a1)
      (fold_left (fun acc x => ListSort.insert x acc) r2 a2)).
  { induction H as [|x1 x2 r1 r2 Hx H IH]; intros a1 a2 Ha; cbn; [exact Ha|].
    apply IH, insert_same_entry; assumption. }
  apply G. constructor.
Qed.

Lemma slice_to_same_entry E1 E2 k l1 l2 :
  Forall2 (same_entry E1 E2) l1 l2 ->
  Forall2 (same_entry E1 E2) (slice_to k l1) (slice_to k l2).
Proof.
  intros H. unfold slice_to. rewrite (Forall2_length H).
  destruct (0 <=? k)%Z; apply Forall2_firstn_own, H.
Qed.

Lemma lookup_same_entry E1 E2 l1 l2 :
  Forall2 (same_entry E1 E2) l1 l2 -> lookup_entries E1 l1 = lookup_entries E2 l2.
Proof.
  unfold lookup_entries. induction 1 as [|x y l1 l2 [_ Hxy] H IH]; cbn;
    [reflexivity|]. rewrite Hxy, IH. reflexivity.
Qed.

Lemma scored_same_entry E1 E2 t V1 V2 sims :
  Forall2 (fun v1 v2 => nth (fst v1) E1 [] = nth (fst v2) E2 []) V1 V2 ->
  Forall2 (same_entry E1 E2) (scored_entries t V1 sims) (scored_entries t V2 sims).
Proof.
  intros H. revert sims.
  induction H as [|[i1 e1] [i2 e2] V1 V2 Hv H IH]; intros sims; cbn;
    [constructor|].
  destruct sims as [|s sims]; [constructor|].
  destruct (t <=? s)%float; [|apply IH].
  constructor; [split; [reflexivity|exact Hv]|apply IH].
Qed.

Lemma valid_data_pairing E1 E2 :
  map snd (valid_data E1) = map snd (valid_data E2) ->
  Forall2 (fun v1 v2 => nth (fst v1) E1 [] = nth (fst v2) E2 [])
    (valid_data E1) (valid_data E2).
Proof.
  intros H.
  assert (P1 : Forall (fun v => nth (fst v) E1 [] = snd v) (valid_data E1)).
  { rewrite Forall_forall. intros [i e] Hin.
    apply valid_data_nth in Hin. apply nth_error_nth, Hin. }
  assert (P2 : Forall (fun v => nth (fst v) E2 [] = snd v) (valid_data E2)).
  { rewrite Forall_forall. intros [i e] Hin.
    apply valid_data_nth in Hin. apply nth_error_nth, Hin. }
  revert H P1 P2. generalize (valid_data E1) (valid_data E2).
  induction l as [|v1 l1 IH]; intros [|v2 l2] H P1 P2; try discriminate;
    constructor.
  - inversion P1; inversion P2; subst. cbn in H. congruence.
  - inversion P1; inversion P2; subst. cbn in H. apply IH; congruence.
Qed.

Lemma filter_nonblank_twice entries :
  filter nonblank (filter nonblank entries) = filter nonblank entries.
Proof. apply forallb_filter_id, forallb_filter. Qed.

(** Filtering out the blank entries first does not change the result. *)
Lemma find_similar_entries_prefiltered query es top_k threshold :
  find_similar_entries isalnum embed query (filter nonblank es) top_k threshold
  = find_similar_entries isalnum embed query es top_k threshold.
Proof.
  assert (Hm : map snd (valid_data (filter nonblank es))
               = map snd (valid_data es)).
  { rewrite !valid_data_entries. apply filter_nonblank_twice. }
  assert (Tv : truthy (valid_data (filter nonblank es))
               = truthy (valid_data es)).
  { apply (f_equal (@length str)) in Hm. rewrite !length_map in Hm.
    destruct (valid_data (filter nonblank es)), (valid_data es);
      try reflexivity; discriminate. }
  assert (Te : truthy (valid_data es) = true -> truthy es = true
               /\ truthy (filter nonblank es) = true).
  { intros H. split.
    - destruct es; [discriminate H|reflexivity].
    - rewrite <- valid_data_entries.
      destruct (valid_data es); [discriminate H|reflexivity]. }
  unfold find_similar_entries, ranked_entries. rewrite Tv.
  destruct (truthy query); cbn [negb orb]; [|reflexivity].
  destruct (truthy (valid_data es)) eqn:Ev.
  2:{ destruct (negb (truthy (filter nonblank es))),
               (negb (truthy es)); reflexivity. }
  destruct (Te eq_refl) as [-> ->]. cbn [negb orb].
  destruct (negb (truthy (strip query))); [reflexivity|].
  apply lookup_same_entry, slice_to_same_entry, sort_desc_same_entry.
  unfold similarities. rewrite Hm.
  apply scored_same_entry, valid_data_pairing, Hm.
Qed.

Lemma similarity_endpoint_cases (request : SimilarityRequest) :
  similarity_endpoint isalnum embed request =
    if truthy (strip (query request))
    then Relevant (find_similar_entries isalnum embed (query request)
                     (entries request) (top_k request) (threshold request))
    else BadRequest.
Proof.
  unfold similarity_endpoint.
  destruct (truthy (strip (query request))); cbn [negb]; [|reflexivity].
  destruct (entries request) as [|e es] eqn:Ee; cbn [truthy negb].
  - unfold find_similar_entries, ranked_entries.
    rewrite orb_true_r. reflexivity.
  - rewrite <- Ee. rewrite find_similar_entries_prefiltered.
    destruct (filter nonblank (entries request)) eqn:Ef; cbn [truthy negb];
      [|reflexivity].
    f_equal. unfold find_similar_entries, ranked_entries.
    assert (Ev : valid_data (entries request) = []).
    { apply map_eq_nil with (f := snd). rewrite valid_data_entries. exact Ef. }
    rewrite Ev. cbn [truthy negb orb].
    destruct (negb (truthy (query request)) || negb (truthy (entries request)));
      reflexivity.
Qed.

(** X10: the handler rejects a query that is blank, and otherwise answers
    with exactly what the service returns for the caller's entries as sent:
    dropping the blank entries beforehand changes neither the entries
    returned nor their order. *)
Theorem similarity_endpoint_is_service (request : SimilarityRequest) :
  (strip (query request) = [] ->
   similarity_endpoint isalnum embed request = BadRequest) /\
  (strip (query request) <> [] ->
   similarity_endpoint isalnum embed request =
     Relevant (find_similar_entries isalnum embed (query request)
                 (entries request) (top_k request) (threshold request))).
Proof.
  rewrite similarity_endpoint_cases.
  destruct (strip (query request)); cbn [truthy]; split; intros H;
    try reflexivity; congruence.
Qed.

(** X11: for a request the model admits ([top_k] absent or within 1..50),
    the handler never answers more than 50 entries, and each one is an entry
    of the request that is not blank. *)
Theorem similarity_endpoint_bounded (request : SimilarityRequest) out :
  (forall k, top_k request = Some k -> (1 <= k <= 50)%Z) ->
  similarity_endpoint isalnum embed request = Relevant out ->
  length out <= 50 /\
  (forall k, top_k request = Some k -> (Z.of_nat (length out) <= k)%Z) /\
  Forall (fun s => In s (entries request) /\ nonblank s = true) out.
Proof.
  intros Hk. rewrite similarity_endpoint_cases.
  destruct (truthy (strip (query request))); [|discriminate].
  intros [= <-].
  assert (Hb : (0 <= or_int (top_k request) TOP_K <= 50)%Z /\
               forall k, top_k request = Some k -> or_int (top_k request) TOP_K = k).
  { destruct (top_k request) as [k|]; cbn.
    - specialize (Hk k eq_refl). destruct (Z.eqb_spec k 0); [lia|].
      split; [lia|]. intros k' [= <-]. reflexivity.
    - unfold TOP_K. split; [lia|]. discriminate. }
  destruct Hb as [Hr He].
  assert (Hl : (Z.of_nat (length (find_similar_entries isalnum embed (query request)
                   (entries request) (top_k request) (threshold request)))
                <= or_int (top_k request) TOP_K)%Z).
  { unfold find_similar_entries. rewrite lookup_entries_length.
    destruct (ranked_entries_cases isalnum embed (query request) (entries request)
                (top_k request) (threshold request)) as [-> | ->].
    - cbn. lia.
    - apply slice_to_length. lia. }
  repeat split.
  - lia.
  - intros k Hk'. rewrite <- (He k Hk'). exact Hl.
  - rewrite Forall_forall. intros s Hs.
    unfold find_similar_entries, lookup_entries in Hs. apply in_map_iff in Hs.
    destruct Hs as [c [<- Hc]]. apply ranked_entries_lookup in Hc.
    destruct Hc as [e [Hn [Hb ->]]]. split; [|exact Hb].
    eapply nth_error_In. exact Hn.
Qed.

End HandlerFacts.

Lemma endpoint_bounded_witness :
  length [py "x"; py "abc"] <= 50 /\
  (forall k, Some 2%Z = Some k -> (Z.of_nat (length [py "x"; py "abc"]) <= k)%Z) /\
  Forall (fun s => In s [py "ab"; py " "; py "abc"; py "x"] /\ nonblank s = true)
    [py "x"; py "abc"].
Proof.
  apply (similarity_endpoint_bounded isalnum_ascii demo_embed
           (Build_SimilarityRequest (py "u") (py "q")
              [py "ab"; py " "; py "abc"; py "x"] (Some 2%Z) None)
           [py "x"; py "abc"]).
  - intros k [= <-]. lia.
  - vm_compute. reflexivity.
Defined.

Lemma endpoint_is_service_witness :
  (strip (py "q") = [] ->
   similarity_endpoint isalnum_ascii demo_embed
     (Build_SimilarityRequest (py "u") (py "q") [py " "; py "ab"; py "x"] None None)
   = BadRequest) /\
  (strip (py "q") <> [] ->
   similarity_endpoint isalnum_ascii demo_embed
     (Build_SimilarityRequest (py "u") (py "q") [py " "; py "ab"; py "x"] None None)
   = Relevant (find_similar_entries isalnum_ascii demo_embed (py "q")
                 [py " "; py "ab"; py "x"] None None)).
Proof.
  exact (similarity_endpoint_is_service isalnum_ascii demo_embed
           (Build_SimilarityRequest (py "u") (py "q") [py " "; py "ab"; py "x"] None None)).
Defined.

(** * The legacy normalizer *)

Section NormalizeFacts.

Import LegacyNormalizer.

Variable lower : str -> str.
Variable stopwords : list str.

Lemma take_while_Forall (P : char -> Prop) q x :
  Forall P x -> Forall P (take_while q x).
Proof.
  induction 1 as [|c r Hc Hr IH]; cbn; [constructor|].
  destruct (q c); constructor; assumption.
Qed.

Lemma take_while_all q x : forallb q (take_while q x) = true.
Proof.
  induction x as [|c r IH]; cbn; [reflexivity|].
  destruct (q c) eqn:E; cbn; [rewrite E; exact IH|reflexivity].
Qed.

Lemma split_aux_tokens b x : Forall token (split_aux b x).
Proof.
  revert b. induction x as [|c r IH]; intros b; cbn [split_aux]; [constructor|].
  destruct (py_isspace c) eqn:Ec; [apply IH|].
  destruct b; [apply IH|]. constructor; [|apply IH].
  assert (En : nonspace c = true) by (unfold nonspace; rewrite Ec; reflexivity).
  cbn [take_while]. rewrite En.
  split; [discriminate|]. cbn [forallb]. rewrite En.
  apply take_while_all.
Qed.

Lemma split_aux_chars (P : char -> Prop) b x :
  Forall P x -> Forall (Forall P) (split_aux b x).
Proof.
  intros H. revert b. induction H as [|c r Hc Hr IH]; intros b; cbn [split_aux];
    [constructor|].
  destruct (py_isspace c); [apply IH|].
  destruct b; [apply IH|]. constructor; [|apply IH].
  apply take_while_Forall. constructor; assumption.
Qed.

Lemma join_Forall (P : char -> Prop) parts :
  P space -> Forall (Forall P) parts -> Forall P (join [space] parts).
Proof.
  intros Hs H. induction H as [|t rest Ht Hr IH]; [constructor|].
  rewrite join_cons. apply Forall_app. split; [exact Ht|].
  unfold join_after. destruct rest; [constructor|].
  constructor; assumption.
Qed.

Lemma Forall_filter_keep {A} (P : A -> Prop) f l :
  Forall P l -> Forall P (filter f l).
Proof.
  induction 1 as [|x l Hx Hl IH]; cbn; [constructor|].
  destruct (f x); [constructor|]; assumption.
Qed.

(** After a token, inside it, the scan goes on as from the text that follows. *)
Lemma split_aux_after_token tok rest :
  forallb nonspace tok = true ->
  (rest = [] \/ exists c r, rest = c :: r /\ py_isspace c = true) ->
  split_aux true (tok ++ rest) = split_aux false rest /\
  take_while nonspace (tok ++ rest) = tok.
Proof.
  intros Ht Hr. induction tok as [|d tok IH]; cbn [app].
  - destruct Hr as [-> | [c [r [-> Hc]]]]; [split; reflexivity|].
    cbn. unfold nonspace. rewrite Hc. split; reflexivity.
  - cbn [forallb] in Ht. apply andb_true_iff in Ht. destruct Ht as [Hd Ht].
    cbn [split_aux take_while]. rewrite Hd.
    unfold nonspace in Hd. apply negb_true_iff in Hd. rewrite Hd.
    destruct (IH Ht) as [-> ->]. split; reflexivity.
Qed.

Lemma join_after_head rest :
  join_after rest = [] \/
  exists c r, join_after rest = c :: r /\ py_isspace c = true.
Proof.
  unfold join_after. destruct rest as [|t ts]; [left; reflexivity|].
  right. exists space, (join [space] (t :: ts)). split; reflexivity.
Qed.

(** [split] gives back the tokens that [join] put together. *)
Lemma split_join_tokens toks :
  Forall token toks -> split (join [space] toks) = toks.
Proof.
  unfold split. induction 1 as [|t rest [Hne Ht] Hr IH]; [reflexivity|].
  rewrite join_cons. destruct t as [|d t]; [congruence|].
  cbn [forallb] in Ht. apply andb_true_iff in Ht. destruct Ht as [Hd Ht].
  pose proof Hd as Hd'. unfold nonspace in Hd'. apply negb_true_iff in Hd'.
  cbn [app split_aux]. rewrite Hd'.
  destruct (split_aux_after_token t (join_after rest) Ht (join_after_head rest))
    as [E1 E2].
  cbn [take_while]. rewrite Hd, E1, E2. f_equal.
  unfold join_after. destruct rest as [|t' rest']; [reflexivity|].
  cbn [split_aux]. rewrite space_isspace. exact IH.
Qed.

Lemma single_spaced_token b tok s :
  tok <> [] -> forallb nonspace tok = true ->
  single_spaced b (tok ++ s) = single_spaced false s.
Proof.
  intros Hne Ht. revert b Hne.
  induction tok as [|d tok IH]; intros b Hne; [congruence|].
  cbn [forallb] in Ht. apply andb_true_iff in Ht. destruct Ht as [Hd Ht].
  unfold nonspace in Hd. apply negb_true_iff in Hd.
  cbn [app single_spaced]. rewrite Hd.
  destruct tok as [|d' tok']; [reflexivity|].
  apply IH; [exact Ht|discriminate].
Qed.

Lemma join_tokens_single_spaced toks :
  Forall token toks -> toks <> [] -> single_spaced true (join [space] toks) = true.
Proof.
  induction 1 as [|t rest [Hne Ht] Hr IH]; intros Hn; [congruence|].
  rewrite join_cons, (single_spaced_token true t _ Hne Ht).
  unfold join_after. destruct rest as [|t' rest']; [reflexivity|].
  cbn [single_spaced]. rewrite space_isspace, N.eqb_refl. cbn [negb andb].
  apply IH. discriminate.
Qed.

Lemma str_eqb_eq a b : str_eqb a b = true -> a = b.
Proof.
  revert b. induction a as [|x a IH]; intros [|y b]; cbn; try discriminate;
    [reflexivity|].
  rewrite andb_true_iff, N.eqb_eq. intros [-> H]. f_equal. apply IH, H.
Qed.

Lemma str_eqb_refl a : str_eqb a a = true.
Proof. induction a as [|x a IH]; cbn; [reflexivity|]. rewrite N.eqb_refl. exact IH. Qed.

(** The words [normalize] keeps, before they are joined. *)
Lemma normalize_words text :
  text <> [] ->
  normalize lower stopwords text
  = join [space]
      (filter (fun word => negb (member word stopwords))
         (split (translate (lower text)))) /\
  Forall token
    (filter (fun word => negb (member word stopwords))
       (split (translate (lower text)))).
Proof.
  intros H. unfold normalize. destruct text; [congruence|]. cbn [truthy negb].
  split; [reflexivity|]. apply Forall_filter_keep, split_aux_tokens.
Qed.

(** X12: the normalized text holds no punctuation character. *)
Theorem normalize_no_punctuation text :
  Forall (fun c => is_punctuation c = false) (normalize lower stopwords text).
Proof.
  unfold normalize. destruct (negb (truthy text)); [constructor|].
  apply join_Forall; [reflexivity|].
  apply Forall_filter_keep, split_aux_chars.
  unfold translate. rewrite Forall_forall. intros c Hc.
  apply filter_In in Hc. destruct Hc as [_ Hc]. apply negb_true_iff, Hc.
Qed.

(** X13: the words of the normalized text are exactly the words that were
    kept, so none of them is a stopword. *)
Theorem normalize_words_not_stopwords text :
  Forall (fun word => member word stopwords = false)
    (split (normalize lower stopwords text)) /\
  (text <> [] ->
   split (normalize lower stopwords text)
   = filter (fun word => negb (member word stopwords))
       (split (translate (lower text)))).
Proof.
  destruct text as [|c r]; [split; [constructor|congruence]|].
  destruct (normalize_words (c :: r)) as [E Ht]; [discriminate|].
  rewrite E, (split_join_tokens _ Ht). split; [|reflexivity].
  rewrite Forall_forall. intros w Hw. apply filter_In in Hw.
  apply negb_true_iff, Hw.
Qed.

(** X14: the normalized text is empty or single-spaced: its words are
    separated by one space each, with no whitespace at either end. *)
Theorem normalize_single_spaced text :
  normalize lower stopwords text = [] \/
  single_spaced true (normalize lower stopwords text) = true.
Proof.
  destruct text as [|c r]; [left; reflexivity|].
  destruct (normalize_words (c :: r)) as [E Ht]; [discriminate|].
  rewrite E.
  destruct (filter (fun word => negb (member word stopwords))
              (split (translate (lower (c :: r))))) as [|t ts] eqn:Ef;
    [left; reflexivity|].
  right. apply join_tokens_single_spaced; [exact Ht|discriminate].
Qed.

(** X15: punctuation is removed before the stopword test, so a stopword
    that contains a punctuation character (such as ["don't"]) never matches:
    leaving those stopwords out changes nothing. *)
Theorem normalize_ignores_punctuated_stopwords text :
  normalize lower stopwords text
  = normalize lower
      (filter (forallb (fun c => negb (is_punctuation c))) stopwords) text.
Proof.
  unfold normalize. destruct (negb (truthy text)); [reflexivity|].
  f_equal. apply filter_ext_in. intros w Hw. f_equal.
  assert (Htr : Forall (fun c => is_punctuation c = false) (translate (lower text))).
  { unfold translate. rewrite Forall_forall. intros c Hc.
    apply filter_In in Hc. destruct Hc as [_ Hc]. apply negb_true_iff, Hc. }
  assert (Hp : forallb (fun c => negb (is_punctuation c)) w = true).
  { pose proof (split_aux_chars _ false _ Htr) as F.
    rewrite Forall_forall in F. specialize (F w Hw).
    apply forallb_forall. rewrite Forall_forall in F.
    intros c Hc. rewrite (F c Hc). reflexivity. }
  unfold member. induction stopwords as [|s sw IH]; [reflexivity|].
  cbn [existsb filter].
  destruct (forallb (fun c => negb (is_punctuation c)) s) eqn:Es.
  - cbn [existsb]. rewrite IH. reflexivity.
  - destruct (str_eqb w s) eqn:E; [|exact IH].
    apply str_eqb_eq in E. subst s. congruence.
Qed.

End NormalizeFacts.

(** * Cleaning never lengthens *)

Section CleanLength.

Variable isalnum : char -> bool.

Lemma join_split_length x :
  length (join [space] (split_aux false x)) <= length x /\
  length (take_while nonspace x ++ join_after (split_aux true x)) <= length x.
Proof.
  induction x as [|c r [IH1 IH2]]; [split; cbn; lia|].
  cbn [split_aux take_while].
  assert (En : nonspace c = negb (py_isspace c)) by reflexivity. rewrite En.
  destruct (py_isspace c); cbn [negb].
  - split; [cbn [length]; lia|]. cbn [app length].
    unfold join_after. destruct (split_aux false r); cbn [length] in *; lia.
  - rewrite join_cons. cbn [app length] in *. lia.
Qed.

Lemma re_sub_runs_length p m k x : length (re_sub_runs p m k x) <= length x.
Proof.
  revert k. induction x as [|c r IH]; intros k; cbn [re_sub_runs]; [cbn; lia|].
  destruct k as [|k].
  - destruct (m <=? run_length p (c :: r)); cbn [length].
    + specialize (IH (Nat.pred (run_length p (c :: r)))). lia.
    + specialize (IH 0). lia.
  - specialize (IH k). cbn [length]. lia.
Qed.

Lemma lstrip_length x : length (lstrip x) <= length x.
Proof.
  unfold lstrip. induction x as [|c r IH]; cbn; [lia|].
  destruct (py_isspace c); cbn; lia.
Qed.

Lemma rstrip_length x : length (rstrip x) <= length x.
Proof.
  induction x as [|c r IH]; cbn [rstrip]; [cbn; lia|].
  destruct (rstrip r); [destruct (py_isspace c)|]; cbn [length] in *; lia.
Qed.

(** X16: the cleaned text is never longer than the text. *)
Theorem clean_for_embedding_length text :
  length (clean_for_embedding isalnum text) <= length text.
Proof.
  unfold clean_for_embedding. destruct (negb (truthy text)); [cbn; lia|].
  unfold strip.
  etransitivity; [apply rstrip_length|].
  etransitivity; [apply lstrip_length|].
  etransitivity; [apply re_sub_runs_length|].
  etransitivity; [apply re_sub_runs_length|].
  apply join_split_length.
Qed.

End CleanLength.

(** * The debug scoring path *)

Section DebugFacts.

Import DebugScores.

Variable isalnum : char -> bool.
Variable embed : str -> vec.
Variable round4 : float -> float.

Lemma debug_insert_perm x l : Permutation (DebugScores.insert x l) (x :: l).
Proof.
  induction l as [|y r IH]; cbn [DebugScores.insert]; [reflexivity|].
  destruct (snd x <? snd y)%float; [reflexivity|].
  rewrite IH. apply perm_swap.
Qed.

Lemma debug_sort_desc_perm l : Permutation (DebugScores.sort_desc l) l.
Proof.
  unfold DebugScores.sort_desc. rewrite <- Permutation_rev.
  rewrite (Permutation_rev l) at 2.
  induction (rev l) as [|x r IH] using rev_ind; [reflexivity|].
  rewrite fold_left_app. cbn [fold_left].
  rewrite debug_insert_perm, IH. apply Permutation_cons_append.
Qed.

Lemma score_results_entries valid sims :
  length sims = length valid ->
  map fst (score_results round4 valid sims) = map snd valid.
Proof.
  revert sims. induction valid as [|[i e] valid IH]; intros [|s sims] H;
    try discriminate; [reflexivity|].
  cbn. f_equal. apply IH. cbn in H. lia.
Qed.

Lemma similarities_length query valid :
  length (similarities isalnum embed query valid) = length valid.
Proof.
  unfold similarities, dot_matrix_vector.
  rewrite !get_embeddings_map, !length_map. reflexivity.
Qed.

Lemma get_similarity_scores_entries query es :
  truthy (strip query) = true ->
  Permutation (map fst (get_similarity_scores isalnum embed round4 query es))
    (filter nonblank es).
Proof.
  intros Hq. unfold get_similarity_scores.
  rewrite (truthy_strip _ Hq), Hq. cbn [negb orb].
  destruct es as [|e0 es']; [reflexivity|]. cbn [truthy negb].
  set (es := e0 :: es').
  destruct (valid_data es) as [|v vs] eqn:Ev; cbn [truthy negb orb].
  - rewrite <- valid_data_entries, Ev. reflexivity.
  - rewrite <- Ev.
    rewrite (Permutation_map fst (debug_sort_desc_perm _)).
    rewrite score_results_entries by apply similarities_length.
    rewrite valid_data_entries. reflexivity.
Qed.

(** X17: the debug scores list every non-blank entry exactly once, whatever
    its score (no threshold and no [top_k] apply), for a query that is not
    blank; a blank query gives no scores. *)
Theorem get_similarity_scores_covers_entries query es :
  (strip query = [] ->
   get_similarity_scores isalnum embed round4 query es = []) /\
  (strip query <> [] ->
   Permutation (map fst (get_similarity_scores isalnum embed round4 query es))
     (filter nonblank es)).
Proof.
  split; intros H.
  - unfold get_similarity_scores. rewrite H. cbn [truthy negb].
    destruct (negb (truthy query) || negb (truthy es)); [reflexivity|].
    rewrite orb_true_r. reflexivity.
  - apply get_similarity_scores_entries. destruct (strip query); [congruence|reflexivity].
Qed.

Lemma display_entry_length entry : length (display_entry entry) <= 103.
Proof.
  unfold display_entry. destruct (Nat.ltb_spec 100 (length entry)); [|lia].
  rewrite length_app, length_firstn.
  change (length (py "...")) with 3. lia.
Qed.

(** X18: for a query that is not blank and at least one entry, the debug
    answer carries the request's query, [top_k] and threshold, one score per
    non-blank entry, and no displayed entry longer than 103 characters; a
    blank query or no entries give the bare empty list of scores. *)
Theorem debug_similarity_answer (request : SimilarityRequest) :
  (strip (query request) = [] \/ entries request = [] ->
   debug_similarity isalnum embed round4 request = ScoresOnly []) /\
  (strip (query request) <> [] -> entries request <> [] ->
   exists scores,
     debug_similarity isalnum embed round4 request
       = Full (query request) (top_k request) (threshold request) scores /\
     length scores = length (filter nonblank (entries request)) /\
     Forall (fun es => length (fst es) <= 103) scores).
Proof.
  unfold debug_similarity. split.
  - intros [H|H]; rewrite H; cbn [truthy negb orb]; [reflexivity|].
    rewrite orb_true_r. reflexivity.
  - intros Hq He.
    assert (Tq : truthy (strip (query request)) = true)
      by (destruct (strip (query request)); [congruence|reflexivity]).
    assert (Te : truthy (entries request) = true)
      by (destruct (entries request); [congruence|reflexivity]).
    rewrite Tq, Te. cbn [negb orb].
    eexists. split; [reflexivity|]. split.
    + rewrite length_map.
      pose proof (get_similarity_scores_entries (query request)
                    (filter nonblank (entries request)) Tq) as P.
      apply Permutation_length in P. rewrite length_map in P.
      rewrite P, filter_nonblank_twice. reflexivity.
    + rewrite Forall_forall. intros es Hes. apply in_map_iff in Hes.
      destruct Hes as [x [<- _]]. cbn [fst]. apply display_entry_length.
Qed.

End DebugFacts.

(** * More examples *)

Example normalize_lowercase :
  LegacyNormalizer.normalize lower_ascii LegacyNormalizer.ENGLISH_STOPWORDS
    (py "Hello WORLD") = py "hello world".
Proof. vm_compute. reflexivity. Qed.

Example normalize_stopwords :
  LegacyNormalizer.normalize lower_ascii LegacyNormalizer.ENGLISH_STOPWORDS
    (py "I am feeling very happy today") = py "feeling happy today".
Proof. vm_compute. reflexivity. Qed.

Example normalize_apostrophe :
  LegacyNormalizer.normalize lower_ascii LegacyNormalizer.ENGLISH_STOPWORDS
    (py "Don't stop, it's fine!") = py "dont stop fine".
Proof. vm_compute. reflexivity. Qed.

(** * Scores and cleaning *)

(** X19: the similarity scores depend on the query and the entries through
    their cleaned text only: queries and entries that clean to the same text
    get the same scores. *)
Theorem similarities_depend_on_cleaned_text
    isalnum embed query1 query2 (valid1 valid2 : list (nat * str)) :
  clean_for_embedding isalnum query1 = clean_for_embedding isalnum query2 ->
  map (clean_for_embedding isalnum) (map snd valid1)
    = map (clean_for_embedding isalnum) (map snd valid2) ->
  similarities isalnum embed query1 valid1 = similarities isalnum embed query2 valid2.
Proof.
  intros Hq Hv. unfold similarities, dot_matrix_vector.
  rewrite !get_embeddings_map. cbn [map nth]. rewrite Hq.
  rewrite <- !(map_map (clean_for_embedding isalnum) embed), Hv. reflexivity.
Qed.

Lemma similarities_cleaned_witness :
  similarities isalnum_ascii demo_embed (py "  q ") [(0, py "a  b"); (1, py "x!!!")]
  = similarities isalnum_ascii demo_embed (py "q") [(3, py " a b "); (7, py "x")].
Proof.
  apply (similarities_depend_on_cleaned_text isalnum_ascii demo_embed
           (py "  q ") (py "q") [(0, py "a  b"); (1, py "x!!!")]
           [(3, py " a b "); (7, py "x")]).
  - reflexivity.
  - reflexivity.
Defined.
